(** * Logging library: level policy, bounded queue, socket backend,
      logger facade and the statistics collector

    A shallow embedding of [include/logging/Logger.h], [src/Logger.cpp],
    [apps/log_stats/main.cpp] and the interactive logger application.  Every
    operation that runs under a mutex is embedded as one atomic state
    transformer; what the operating system answers (connect, send, the file
    system, the clock) is an explicit input. *)

From Stdlib Require Import ZArith NArith String Ascii List Bool Lia.
From stdpp Require Import base option countable gmap strings list.

Open Scope string_scope.

(** ** LogLevel and its string conversions *)

(** [enum class LogLevel : int].  [Logger.h] declares [DEBUG = 0], [INFO = 1]
    and [WARNING = 2]; [Logger.cpp] also names [TRACE], [ERROR] and [FATAL]
    in [logLevelToString] and [stringToLogLevel], so the type embedded here
    carries all six enumerators the code switches on. *)
Inductive LogLevel : Type :=
  | TRACE
  | DEBUG
  | INFO
  | WARNING
  | ERROR
  | FATAL.

#[global] Instance LogLevel_eq_dec : EqDecision LogLevel.
Proof. solve_decision. Defined.

Definition LogLevel_index (l : LogLevel) : nat :=
  match l with
  | TRACE => 0 | DEBUG => 1 | INFO => 2 | WARNING => 3 | ERROR => 4 | FATAL => 5
  end%nat.

Definition LogLevel_of_index (n : nat) : option LogLevel :=
  match n with
  | 0 => Some TRACE | 1 => Some DEBUG | 2 => Some INFO
  | 3 => Some WARNING | 4 => Some ERROR | 5 => Some FATAL
  | _ => None
  end%nat.

#[global] Program Instance LogLevel_countable : Countable LogLevel :=
  inj_countable LogLevel_index LogLevel_of_index _.
Next Obligation. by intros []. Qed.

(** [logLevelToString]: the [default] arm of the switch ("UNKNOWN") is only
    taken for an integer that is no enumerator, which [LogLevel] excludes. *)
Definition logLevelToString (level : LogLevel) : string :=
  match level with
  | TRACE => "TRACE"
  | DEBUG => "DEBUG"
  | INFO => "INFO"
  | WARNING => "WARNING"
  | ERROR => "ERROR"
  | FATAL => "FATAL"
  end.

(** [::toupper] in the "C" locale (the program never calls [setlocale]):
    the 26 lower-case ASCII letters move down by 32, every other byte stays. *)
Definition toupper (c : ascii) : ascii :=
  let n := nat_of_ascii c in
  if ((97 <=? n) && (n <=? 122))%nat then ascii_of_nat (n - 32) else c.

(** [std::transform(upper.begin(), upper.end(), upper.begin(), ::toupper)] *)
Fixpoint transform_toupper (s : string) : string :=
  match s with
  | EmptyString => EmptyString
  | String c rest => String (toupper c) (transform_toupper rest)
  end.

Definition stringToLogLevel (levelStr : string) : LogLevel :=
  let upper := transform_toupper levelStr in
  if String.eqb upper "TRACE" then TRACE
  else if String.eqb upper "DEBUG" then DEBUG
  else if String.eqb upper "INFO" then INFO
  else if String.eqb upper "WARNING" then WARNING
  else if String.eqb upper "ERROR" then ERROR
  else if String.eqb upper "FATAL" then FATAL
  else INFO.

(** Two strings are the same name up to letter case. *)
Definition eq_nocase (s t : string) : Prop :=
  transform_toupper s = transform_toupper t.

(** The levels [Logger.h] declares, which are the levels of the
    specification's data model. *)
Definition header_level (l : LogLevel) : Prop :=
  l = DEBUG \/ l = INFO \/ l = WARNING.

(** ** Error codes and configuration *)

Inductive LoggingError : Type :=
  | SUCCESS
  | FILE_OPEN_FAILED
  | FILE_WRITE_FAILED
  | SOCKET_CONNECTION_FAILED
  | SOCKET_WRITE_FAILED
  | CONFIG_PARSE_ERROR
  | QUEUE_OVERFLOW
  | ROTATION_FAILED.

Definition LoggingError_code (e : LoggingError) : Z :=
  match e with
  | SUCCESS => 0
  | FILE_OPEN_FAILED => 1001
  | FILE_WRITE_FAILED => 1002
  | SOCKET_CONNECTION_FAILED => 2001
  | SOCKET_WRITE_FAILED => 2002
  | CONFIG_PARSE_ERROR => 3001
  | QUEUE_OVERFLOW => 5001
  | ROTATION_FAILED => 6001
  end%Z.

Record LoggerConfig : Type := mkLoggerConfig {
  defaultLevel : LogLevel;
  enableAsync : bool;
  asyncQueueSize : N;
  maxFileSizeMB : N;
  maxFiles : N;
  enableRotation : bool;
  compressOldLogs : bool;
  timestampFormat : string;
  reconnectIntervalMs : Z;
  maxReconnectAttempts : Z
}.

(** The default member initialisers of [struct LoggerConfig]. *)
Definition LoggerConfig_default : LoggerConfig :=
  {| defaultLevel := INFO;
     enableAsync := false;
     asyncQueueSize := 10000;
     maxFileSizeMB := 100;
     maxFiles := 10;
     enableRotation := true;
     compressOldLogs := false;
     timestampFormat := "%Y-%m-%d %H:%M:%S";
     reconnectIntervalMs := 5000;
     maxReconnectAttempts := 10 |}.

(** ** AsyncQueue<T> *)

(** The queue under its mutex: every member function is one atomic step on
    this record.  [max_size_] is a [size_t]; it is only ever compared. *)
Record AsyncQueue (T : Type) : Type := mkAsyncQueue {
  queue_ : list T;
  shutdown_ : bool;
  max_size_ : N
}.
Arguments mkAsyncQueue {T} _ _ _.
Arguments queue_ {T} _.
Arguments shutdown_ {T} _.
Arguments max_size_ {T} _.

Definition AsyncQueue_new {T : Type} (max_size : N) : AsyncQueue T :=
  mkAsyncQueue [] false max_size.

Definition queue_size {T : Type} (q : AsyncQueue T) : N :=
  N.of_nat (List.length (queue_ q)).

(** [push] takes the lock, compares and returns: it has no waiting outcome. *)
Definition push {T : Type} (q : AsyncQueue T) (item : T)
  : bool * AsyncQueue T :=
  if (max_size_ q <=? queue_size q)%N then (false, q)
  else (true, mkAsyncQueue (queue_ q ++ [item]) (shutdown_ q) (max_size_ q)).

(** What a call of [pop] does for its caller: it stays in [cv_.wait] (until
    another thread pushes or shuts the queue down), or it returns false and
    leaves the out-parameter alone, or it returns true with the front item. *)
Inductive PopResult (T : Type) : Type :=
  | pop_waits
  | pop_false
  | pop_true (item : T).
Arguments pop_waits {T}.
Arguments pop_false {T}.
Arguments pop_true {T} _.

Definition queue_empty {T : Type} (q : AsyncQueue T) : bool :=
  match queue_ q with [] => true | _ :: _ => false end.

Definition pop {T : Type} (q : AsyncQueue T) : PopResult T * AsyncQueue T :=
  if negb (negb (queue_empty q) || shutdown_ q) then (pop_waits, q)
  else if shutdown_ q && queue_empty q then (pop_false, q)
  else match queue_ q with
       | item :: rest =>
           (pop_true item, mkAsyncQueue rest (shutdown_ q) (max_size_ q))
       | [] => (pop_waits, q) (* not reached: the wait predicate holds *)
       end.

Definition shutdown {T : Type} (q : AsyncQueue T) : AsyncQueue T :=
  mkAsyncQueue (queue_ q) true (max_size_ q).

(** A producer pushing the given items one after the other, no other thread
    touching the queue in between. *)
Fixpoint push_all {T : Type} (q : AsyncQueue T) (items : list T)
  : list bool * AsyncQueue T :=
  match items with
  | [] => ([], q)
  | item :: rest =>
      let '(r, q1) := push q item in
      let '(rs, q2) := push_all q1 rest in
      (r :: rs, q2)
  end.

(** The consumer calling [pop] [n] times in a row; a call that waits is the
    last one the consumer makes. *)
Fixpoint pop_n {T : Type} (n : nat) (q : AsyncQueue T)
  : list (PopResult T) * AsyncQueue T :=
  match n with
  | O => ([], q)
  | S n' =>
      match pop q with
      | (pop_waits, q1) => ([pop_waits], q1)
      | (r, q1) =>
          let '(rs, q2) := pop_n n' q1 in (r :: rs, q2)
      end
  end.

(** ** LogRotator *)

Record LogRotator : Type := mkLogRotator {
  base_filename_ : string;
  max_size_bytes_ : N;
  max_files_ : N;
  compress_ : bool
}.

(** Modelled from the spec: the constructor of [LogRotator] is declared in
    [Logger.h] and defined in no source file at hand; the specification gives
    [maxSizeBytes = maxSizeMB * 1024 * 1024]. *)
Definition LogRotator_new (base_filename : string) (max_size_mb max_files : N)
    (compress : bool) : LogRotator :=
  {| base_filename_ := base_filename;
     max_size_bytes_ := max_size_mb * 1024 * 1024;
     max_files_ := max_files;
     compress_ := compress |}.

(** Modelled from the spec: [LogRotator::shouldRotate] is declared in
    [Logger.h] and defined in no source file at hand; the specification gives
    [currentSize >= maxSizeBytes]. *)
Definition shouldRotate (r : LogRotator) (current_size : N) : bool :=
  (max_size_bytes_ r <=? current_size)%N.

(** ** The output interface and SocketOutput *)

(** [class LogOutput]: [writeLog] may change the backend and the world [W]
    outside the process; [isValid] is a [const] member and only reads. *)
Class LogOutput (W B : Type) : Type := {
  writeLog : B -> string -> W -> bool * B * W;
  isValid : B -> bool
}.

(** The network as [SocketOutput] meets it: the values the kernel returns to
    the coming [send] calls, in order, and the calls made so far (descriptor
    and buffer).  With the script used up, [send] fails with -1. *)
Record Net : Type := mkNet {
  send_returns : list Z;
  send_calls : list (Z * string)
}.

Definition sys_send (fd : Z) (buf : string) (net : Net) : Z * Net :=
  match send_returns net with
  | r :: rs => (r, mkNet rs (send_calls net ++ [(fd, buf)]))
  | [] => ((-1)%Z, mkNet [] (send_calls net ++ [(fd, buf)]))
  end.

(** What [socket], [inet_pton] and [::connect] return to one call of
    [SocketOutput::connect]. *)
Record ConnectAnswers : Type := mkConnectAnswers {
  socket_ret : Z;
  inet_pton_ret : Z;
  connect_ret : Z
}.

Record SocketOutput : Type := mkSocketOutput {
  socket_fd_ : Z;
  host_ : string;
  port_ : Z;
  connected_ : bool
}.

Definition set_socket_fd (s : SocketOutput) (fd : Z) : SocketOutput :=
  mkSocketOutput fd (host_ s) (port_ s) (connected_ s).

Definition set_connected (s : SocketOutput) (c : bool) : SocketOutput :=
  mkSocketOutput (socket_fd_ s) (host_ s) (port_ s) c.

Definition SocketOutput_connect (os : ConnectAnswers) (s : SocketOutput)
  : bool * SocketOutput :=
  let s1 := set_socket_fd s (socket_ret os) in
  if (socket_fd_ s1 <? 0)%Z then (false, s1)
  else if (inet_pton_ret os <=? 0)%Z then (false, set_socket_fd s1 (-1))
  else if (connect_ret os <? 0)%Z then (false, set_socket_fd s1 (-1))
  else (true, s1).

(** The constructor: [socket_fd_(-1), connected_(false)], then
    [connected_ = connect()]. *)
Definition SocketOutput_new (os : ConnectAnswers) (host : string) (port : Z)
  : SocketOutput :=
  let s0 := mkSocketOutput (-1) host port false in
  let '(r, s1) := SocketOutput_connect os s0 in
  set_connected s1 r.

Definition newline : string := String (ascii_of_nat 10) EmptyString.

Definition SocketOutput_writeLog (s : SocketOutput) (formattedMessage : string)
    (net : Net) : bool * SocketOutput * Net :=
  if negb (connected_ s) || (socket_fd_ s <? 0)%Z then (false, s, net)
  else
    let message := formattedMessage ++ newline in
    let '(sent, net1) := sys_send (socket_fd_ s) message net in
    if (sent <? 0)%Z then (false, set_connected s false, net1)
    else ((sent =? Z.of_nat (String.length message))%Z, s, net1).

Definition SocketOutput_isValid (s : SocketOutput) : bool :=
  connected_ s && (0 <=? socket_fd_ s)%Z.

#[global] Instance SocketOutput_LogOutput : LogOutput Net SocketOutput :=
  {| writeLog := SocketOutput_writeLog; isValid := SocketOutput_isValid |}.

(** ** Logger *)

(** [output_] is a [unique_ptr] and may be null.  The worker thread handle
    [async_worker_] has no content; [async_queue_] is a pointer as well. *)
Record Logger (B : Type) : Type := mkLogger {
  output_ : option B;
  defaultLevel_ : LogLevel;
  config_ : LoggerConfig;
  async_queue_ : option (AsyncQueue (string * LogLevel));
  async_running_ : bool;
  last_error_ : LoggingError;
  last_error_message_ : string
}.
Arguments mkLogger {B} _ _ _ _ _ _ _.
Arguments output_ {B} _.
Arguments defaultLevel_ {B} _.
Arguments config_ {B} _.
Arguments async_queue_ {B} _.
Arguments async_running_ {B} _.
Arguments last_error_ {B} _.
Arguments last_error_message_ {B} _.

(** [Logger(host, port, defaultLevel)].  Only [output_] and [defaultLevel_]
    are in the initialiser list: [config_] takes the defaults of
    [LoggerConfig], and [last_error_] is left uninitialised, so what it
    holds is an input here. *)
Definition Logger_socket (os : ConnectAnswers) (host : string) (port : Z)
    (level : LogLevel) (uninitialised : LoggingError) : Logger SocketOutput :=
  {| output_ := Some (SocketOutput_new os host port);
     defaultLevel_ := level;
     config_ := LoggerConfig_default;
     async_queue_ := None;
     async_running_ := false;
     last_error_ := uninitialised;
     last_error_message_ := "" |}.

Definition setDefaultLevel {B : Type} (lg : Logger B) (level : LogLevel)
  : Logger B :=
  mkLogger (output_ lg) level (config_ lg) (async_queue_ lg)
    (async_running_ lg) (last_error_ lg) (last_error_message_ lg).

Definition getDefaultLevel {B : Type} (lg : Logger B) : LogLevel :=
  defaultLevel_ lg.

Definition setConfig {B : Type} (lg : Logger B) (config : LoggerConfig)
  : Logger B :=
  mkLogger (output_ lg) (defaultLevel config) config (async_queue_ lg)
    (async_running_ lg) (last_error_ lg) (last_error_message_ lg).

Definition getConfig {B : Type} (lg : Logger B) : LoggerConfig := config_ lg.

Definition getLastError {B : Type} (lg : Logger B) : LoggingError :=
  last_error_ lg.

Definition getLastErrorMessage {B : Type} (lg : Logger B) : string :=
  last_error_message_ lg.

Definition isAsyncEnabled {B : Type} (lg : Logger B) : bool :=
  async_running_ lg.

Definition set_output {B : Type} (lg : Logger B) (o : option B) : Logger B :=
  mkLogger o (defaultLevel_ lg) (config_ lg) (async_queue_ lg)
    (async_running_ lg) (last_error_ lg) (last_error_message_ lg).

(** [formatMessage]; [time] is what [getCurrentTime] rendered from the
    clock ("YYYY-MM-DD HH:MM:SS.mmm"). *)
Definition formatMessage (time message : string) (level : LogLevel) : string :=
  "[" ++ time ++ "] " ++ "[" ++ logLevelToString level ++ "] " ++ message.

(** The virtual calls [Logger::log] makes on [output_], in order. *)
Inductive BackendCall : Type :=
  | call_isValid
  | call_writeLog (formattedMessage : string).

Record LogOutcome (W B : Type) : Type := mkLogOutcome {
  returned : bool;
  logger_after : Logger B;
  world_after : W;
  backend_calls : list BackendCall
}.
Arguments mkLogOutcome {W B} _ _ _ _.
Arguments returned {W B} _.
Arguments logger_after {W B} _.
Arguments world_after {W B} _.
Arguments backend_calls {W B} _.

Definition emitted {W B : Type} (o : LogOutcome W B) (formatted : string)
  : Prop :=
  In (call_writeLog formatted) (backend_calls o).

Section LoggerLog.

(** [Logger.h] fixes [static_cast<int>] of [DEBUG], [INFO] and [WARNING];
    the integers behind the three enumerators it does not declare are
    left open. *)
Variables TRACE_value ERROR_value FATAL_value : Z.

Definition LogLevel_int (l : LogLevel) : Z :=
  match l with
  | DEBUG => 0
  | INFO => 1
  | WARNING => 2
  | TRACE => TRACE_value
  | ERROR => ERROR_value
  | FATAL => FATAL_value
  end%Z.

Context {W B : Type} `{!LogOutput W B}.

Definition log (lg : Logger B) (time message : string) (level : LogLevel)
    (w : W) : LogOutcome W B :=
  if (LogLevel_int level <? LogLevel_int (defaultLevel_ lg))%Z then
    mkLogOutcome true lg w []
  else
    match output_ lg with
    | None => mkLogOutcome false lg w []
    | Some b =>
        if negb (isValid b) then mkLogOutcome false lg w [call_isValid]
        else
          let formattedMessage := formatMessage time message level in
          let '(r, b1, w1) := writeLog b formattedMessage w in
          mkLogOutcome r (set_output lg (Some b1)) w1
            [call_isValid; call_writeLog formattedMessage]
    end.

(** [log(message)] is [log(message, defaultLevel_)]. *)
Definition log_default (lg : Logger B) (time message : string) (w : W)
  : LogOutcome W B :=
  log lg time message (defaultLevel_ lg) w.

Definition debug (lg : Logger B) (time message : string) (w : W) :=
  log lg time message DEBUG w.
Definition info (lg : Logger B) (time message : string) (w : W) :=
  log lg time message INFO w.
Definition warning (lg : Logger B) (time message : string) (w : W) :=
  log lg time message WARNING w.

End LoggerLog.

(** ** The statistics collector *)

(** [std::string::find(ch, pos)]: [None] stands for [npos]. *)
Fixpoint string_find (ch : ascii) (s : string) (pos : nat) : option nat :=
  match s with
  | EmptyString => None
  | String c rest =>
      match pos with
      | O => if Ascii.eqb c ch then Some O
             else option_map S (string_find ch rest O)
      | S pos' => option_map S (string_find ch rest pos')
      end
  end.

Fixpoint char_in (c : ascii) (chars : string) : bool :=
  match chars with
  | EmptyString => false
  | String d rest => Ascii.eqb c d || char_in c rest
  end.

(** [std::string::find_first_not_of(chars, pos)] *)
Fixpoint find_first_not_of (chars : string) (s : string) (pos : nat)
  : option nat :=
  match s with
  | EmptyString => None
  | String c rest =>
      match pos with
      | O => if char_in c chars then option_map S (find_first_not_of chars rest O)
             else Some O
      | S pos' => option_map S (find_first_not_of chars rest pos')
      end
  end.

(** [s.substr(pos)], for [pos <= s.length()] (the only use made of it). *)
Fixpoint substr_from (s : string) (pos : nat) : string :=
  match pos, s with
  | O, _ => s
  | S pos', String _ rest => substr_from rest pos'
  | S _, EmptyString => EmptyString
  end.

Definition tab : ascii := ascii_of_nat 9.
Definition blanks : string := String " "%char (String tab EmptyString).

(** [parseLogMessage]: [None] is the [false] return; [Some (message, level)]
    is [true] with the two out-parameters. *)
Definition parseLogMessage (rawMessage : string) : option (string * LogLevel) :=
  match string_find "["%char rawMessage 0 with
  | None => None
  | Some firstBracket =>
    match string_find "]"%char rawMessage firstBracket with
    | None => None
    | Some secondBracket =>
      match string_find "["%char rawMessage secondBracket with
      | None => None
      | Some thirdBracket =>
        match string_find "]"%char rawMessage thirdBracket with
        | None => None
        | Some fourthBracket =>
            let levelStr :=
              String.substring (thirdBracket + 1)
                (fourthBracket - thirdBracket - 1) rawMessage in
            let level := stringToLogLevel levelStr in
            let message :=
              match find_first_not_of blanks rawMessage (fourthBracket + 1) with
              | None => ""
              | Some messageStart => substr_from rawMessage messageStart
              end in
            Some (message, level)
        end
      end
    end
  end.

Definition SIZE_MAX : N := 2 ^ 64 - 1.

(** Arithmetic on [size_t]. *)
Definition size_t_add (a b : N) : N := ((a + b) mod 2 ^ 64)%N.

(** [struct LogStatistics].  Time points are tick counts of the system
    clock.  [avgLength], a [double] recomputed from [totalLength] and
    [totalMessages] on every update, is left out. *)
Record LogStatistics : Type := mkLogStatistics {
  totalMessages : N;
  messagesByLevel : gmap LogLevel N;
  messagesLastHour : N;
  minLength : N;
  maxLength : N;
  totalLength : N;
  timestamps : list Z;
  lastStatsOutput : Z;
  statsChanged : bool
}.

(** A fresh [LogStatistics], created at clock reading [now]. *)
Definition LogStatistics_new (now : Z) : LogStatistics :=
  {| totalMessages := 0;
     messagesByLevel := ∅;
     messagesLastHour := 0;
     minLength := SIZE_MAX;
     maxLength := 0;
     totalLength := 0;
     timestamps := [];
     lastStatsOutput := now;
     statsChanged := false |}.

(** [addMessage], called at clock reading [now]; [hour] is
    [std::chrono::hours(1)] in ticks of that clock. *)
Definition addMessage (hour : Z) (st : LogStatistics) (message : string)
    (level : LogLevel) (now : Z) : LogStatistics :=
  let messageLength := N.of_nat (String.length message) in
  let hourAgo := (now - hour)%Z in
  let stamps :=
    List.filter (fun t => negb (t <? hourAgo)%Z) (timestamps st ++ [now]) in
  {| totalMessages := size_t_add (totalMessages st) 1;
     messagesByLevel :=
       <[level := size_t_add (default 0%N (messagesByLevel st !! level)) 1]>
         (messagesByLevel st);
     messagesLastHour := N.of_nat (List.length stamps);
     minLength := N.min (minLength st) messageLength;
     maxLength := N.max (maxLength st) messageLength;
     totalLength := size_t_add (totalLength st) messageLength;
     timestamps := stamps;
     lastStatsOutput := lastStatsOutput st;
     statsChanged := true |}.

(** One received line, as the receive loop of [main] treats it once it is
    cut at the line feed: an empty line is skipped, one trailing carriage
    return is dropped, and the line counts if [parseLogMessage] accepts it. *)
Fixpoint drop_trailing_cr (line : string) : string :=
  match line with
  | EmptyString => EmptyString
  | String c EmptyString =>
      if Ascii.eqb c (ascii_of_nat 13) then EmptyString else line
  | String c rest => String c (drop_trailing_cr rest)
  end.

Definition receive_line (hour : Z) (st : LogStatistics) (line : string)
    (now : Z) : LogStatistics :=
  match line with
  | EmptyString => st
  | _ =>
      match parseLogMessage (drop_trailing_cr line) with
      | Some (message, level) => addMessage hour st message level now
      | None => st
      end
  end.

(** The collector after a run of lines, the i-th handled at the i-th clock
    reading. *)
Fixpoint receive_lines (hour : Z) (st : LogStatistics)
    (lines : list (string * Z)) : LogStatistics :=
  match lines with
  | [] => st
  | (line, now) :: rest => receive_lines hour (receive_line hour st line now) rest
  end.

(** ** FileOutput *)

(** What the file system answers when a stream writes and flushes: all bytes
    reached the file, or the write failed after the given bytes had reached
    it. *)
Inductive WriteAnswer : Type :=
  | write_ok
  | write_failed (reached : string).

(** The log file as [FileOutput] meets it: the bytes that have reached it,
    and the answers to the coming writes, in order (beyond the script every
    write succeeds).  Bytes of a failed write that the stream keeps, and
    that closing the file may write after all, are not modelled. *)
Record Disk : Type := mkDisk {
  write_answers : list WriteAnswer;
  file_bytes : string
}.

Definition sys_write (buf : string) (disk : Disk) : bool * Disk :=
  match write_answers disk with
  | [] => (true, mkDisk [] (file_bytes disk ++ buf))
  | write_ok :: rest => (true, mkDisk rest (file_bytes disk ++ buf))
  | write_failed reached :: rest =>
      (false, mkDisk rest (file_bytes disk ++ reached))
  end.

(** [std::ofstream file_] as far as [FileOutput] looks at it: whether it is
    open, and whether its state is still good. *)
Record FileOutput : Type := mkFileOutput {
  file_is_open : bool;
  file_good : bool;
  filename_ : string
}.

(** The constructor: [file_.open(filename_, std::ios::app)]; [opened] is what
    the file system answers.  A failed [open] sets the stream's failbit. *)
Definition FileOutput_new (opened : bool) (filename : string) : FileOutput :=
  mkFileOutput opened opened filename.

(** [file_ << formattedMessage << std::endl; file_.flush(); return
    file_.good();].  On a stream that is no longer good the insertions and
    the flush do nothing; nothing in the class ever clears the state. *)
Definition FileOutput_writeLog (f : FileOutput) (formattedMessage : string)
    (disk : Disk) : bool * FileOutput * Disk :=
  if negb (file_is_open f) then (false, f, disk)
  else if file_good f then
    let '(ok, disk1) := sys_write (formattedMessage ++ newline) disk in
    (ok, mkFileOutput (file_is_open f) ok (filename_ f), disk1)
  else (false, f, disk).

Definition FileOutput_isValid (f : FileOutput) : bool :=
  file_is_open f && file_good f.

#[global] Instance FileOutput_LogOutput : LogOutput Disk FileOutput :=
  {| writeLog := FileOutput_writeLog; isValid := FileOutput_isValid |}.

(** [Logger(filename, defaultLevel)]; see [Logger_socket] for the fields the
    initialiser list leaves out. *)
Definition Logger_file (opened : bool) (filename : string) (level : LogLevel)
    (uninitialised : LoggingError) : Logger FileOutput :=
  {| output_ := Some (FileOutput_new opened filename);
     defaultLevel_ := level;
     config_ := LoggerConfig_default;
     async_queue_ := None;
     async_running_ := false;
     last_error_ := uninitialised;
     last_error_message_ := "" |}.

(** [Logger::isValid]: [output_ && output_->isValid()]. *)
Definition Logger_isValid {W B : Type} `{!LogOutput W B} (lg : Logger B)
  : bool :=
  match output_ lg with
  | None => false
  | Some b => isValid b
  end.

(** [SocketOutput::disconnect], which the destructor calls. *)
Definition SocketOutput_disconnect (s : SocketOutput) : SocketOutput :=
  let s1 := if (0 <=? socket_fd_ s)%Z then set_socket_fd s (-1) else s in
  set_connected s1 false.

(** A caller making one [writeLog] call after the other on a socket. *)
Fixpoint SocketOutput_writeLogs (s : SocketOutput) (messages : list string)
    (net : Net) : list bool * SocketOutput * Net :=
  match messages with
  | [] => ([], s, net)
  | m :: rest =>
      let '(r, s1, net1) := SocketOutput_writeLog s m net in
      let '(rs, s2, net2) := SocketOutput_writeLogs s1 rest net1 in
      (r :: rs, s2, net2)
  end.

(** A caller making one [writeLog] call after the other on a file. *)
Fixpoint FileOutput_writeLogs (f : FileOutput) (messages : list string)
    (disk : Disk) : list bool * FileOutput * Disk :=
  match messages with
  | [] => ([], f, disk)
  | m :: rest =>
      let '(r, f1, disk1) := FileOutput_writeLog f m disk in
      let '(rs, f2, disk2) := FileOutput_writeLogs f1 rest disk1 in
      (r :: rs, f2, disk2)
  end.

(** ** The statistics collector: reports and the receive loop *)

(** [shouldPrintStats], called at clock reading [now]; [second] is one
    second in ticks of the clock and [duration_cast] rounds towards zero.
    [main] refuses [messagesInterval = 0], for which the source divides by
    zero: what this definition gives there describes no run of the program,
    and what is proved about it assumes [0 < messagesInterval]. *)
Definition shouldPrintStats (second : Z) (st : LogStatistics)
    (messagesInterval : N) (timeoutSeconds : Z) (now : Z) : bool :=
  if ((totalMessages st mod messagesInterval =? 0)
      && (0 <? totalMessages st))%N
  then true
  else
    let timeSinceLastOutput := ((now - lastStatsOutput st) ÷ second)%Z in
    statsChanged st && (timeoutSeconds <=? timeSinceLastOutput)%Z.

(** [printStatistics], called at clock reading [now]: the report itself goes
    to [std::cout]; these are the fields it assigns. *)
Definition printStatistics (st : LogStatistics) (now : Z) : LogStatistics :=
  {| totalMessages := totalMessages st;
     messagesByLevel := messagesByLevel st;
     messagesLastHour := messagesLastHour st;
     minLength := minLength st;
     maxLength := maxLength st;
     totalLength := totalLength st;
     timestamps := timestamps st;
     lastStatsOutput := now;
     statsChanged := false |}.

(** [addMessage] for one message after the other, each with the clock
    reading of its call. *)
Fixpoint addMessages (hour : Z) (st : LogStatistics)
    (events : list (string * LogLevel * Z)) : LogStatistics :=
  match events with
  | [] => st
  | (message, level, now) :: rest =>
      addMessages hour (addMessage hour st message level now) rest
  end.

Definition NUL : ascii := ascii_of_nat 0.
Definition line_feed : ascii := ascii_of_nat 10.

(** [std::string(buffer)] for a [char] buffer: the bytes before the first
    zero byte. *)
Fixpoint c_string (buffer : string) : string :=
  match buffer with
  | EmptyString => EmptyString
  | String c rest => if Ascii.eqb c NUL then EmptyString
                     else String c (c_string rest)
  end.

(** The inner loop of [main]: while [data] holds a line feed, cut the line
    before it off ([substr(0, pos)], [erase(0, pos + 1)]).  Returns the lines
    cut and what is left of [data]. *)
Fixpoint cut_lines (fuel : nat) (data : string) : list string * string :=
  match fuel with
  | O => ([], data)
  | S fuel' =>
      match string_find line_feed data 0 with
      | None => ([], data)
      | Some pos =>
          let line := String.substring 0 pos data in
          let '(lines, rest) := cut_lines fuel' (substr_from data (pos + 1)) in
          (line :: lines, rest)
      end
  end.

(** One round of the receive loop on the bytes [recv] delivered:
    [data = partialMessage + std::string(buffer)], the lines cut from it, and
    the new [partialMessage]. *)
Definition receive_data (partialMessage buffer : string)
  : list string * string :=
  let data := partialMessage ++ c_string buffer in
  cut_lines (String.length data) data.

(** Leading blanks and tabs removed. *)
Fixpoint skip_blanks (s : string) : string :=
  match s with
  | EmptyString => EmptyString
  | String c rest => if char_in c blanks then skip_blanks rest else s
  end.

(** The character occurs nowhere in the string. *)
Fixpoint char_free (ch : ascii) (s : string) : bool :=
  match s with
  | EmptyString => true
  | String c rest => negb (Ascii.eqb c ch) && char_free ch rest
  end.

(** Helpers to speak about runs of messages. *)
Definition event_length (e : string * LogLevel * Z) : N :=
  N.of_nat (String.length e.1.1).

Definition event_time (e : string * LogLevel * Z) : Z := e.2.

Definition events_at (l : LogLevel) (events : list (string * LogLevel * Z))
  : list (string * LogLevel * Z) :=
  List.filter (fun e => bool_decide (e.1.2 = l)) events.

Definition within_hour (hour now : Z) (t : Z) : bool :=
  negb (t <? now - hour)%Z.

(** The lines, each closed by a line feed, one after the other. *)
Fixpoint unlines (lines : list string) : string :=
  match lines with
  | [] => EmptyString
  | line :: rest => line ++ String line_feed (unlines rest)
  end.

(** The answers of a kernel that takes every buffer whole: for each message
    the number of bytes [writeLog] asks it to send. *)
Definition whole_sends (messages : list string) : list Z :=
  List.map (fun m => Z.of_nat (String.length (m ++ newline))) messages.

(** The bytes handed to [send] so far, in order: what the peer receives when
    every buffer was taken whole. *)
Definition sent_bytes (net : Net) : string :=
  fold_right (fun call rest => call.2 ++ rest) EmptyString (send_calls net).

(** ** The interactive logger application *)

Module LoggerApp.

Record LogMessage : Type := mkLogMessage {
  text : string;
  level : LogLevel
}.

(** [class ThreadSafeQueue]: no bound on the size. *)
Record ThreadSafeQueue : Type := mkThreadSafeQueue {
  queue_ : list LogMessage;
  shutdown_ : bool
}.

Definition ThreadSafeQueue_new : ThreadSafeQueue := mkThreadSafeQueue [] false.

Definition push (q : ThreadSafeQueue) (message : LogMessage)
  : ThreadSafeQueue :=
  mkThreadSafeQueue (queue_ q ++ [message]) (shutdown_ q).

Definition pop (q : ThreadSafeQueue)
  : PopResult LogMessage * ThreadSafeQueue :=
  match queue_ q with
  | [] => if shutdown_ q then (pop_false, q) else (pop_waits, q)
  | message :: rest =>
      (pop_true message, mkThreadSafeQueue rest (shutdown_ q))
  end.

Definition shutdown (q : ThreadSafeQueue) : ThreadSafeQueue :=
  mkThreadSafeQueue (queue_ q) true.

(** The position of the separator, computed alike by [parseLogLevel] and
    [extractMessage]: the first colon or the first space, whichever comes
    first. *)
Definition separatorPos (input : string) : option nat :=
  let colonPos := string_find ":"%char input 0 in
  let spacePos := string_find " "%char input 0 in
  match colonPos, spacePos with
  | Some c, Some s => Some (Nat.min c s)
  | Some c, None => Some c
  | None, Some s => Some s
  | None, None => None
  end.

(** [parseLogLevel]: the level and the out-parameter [hasLevel]. *)
Definition parseLogLevel (input : string) : LogLevel * bool :=
  match input with
  | EmptyString => (INFO, false)
  | _ =>
      match separatorPos input with
      | None => (INFO, false)
      | Some pos =>
          let levelStr := String.substring 0 pos input in
          if String.eqb levelStr "DEBUG" || String.eqb levelStr "debug"
          then (DEBUG, true)
          else if String.eqb levelStr "INFO" || String.eqb levelStr "info"
          then (INFO, true)
          else if String.eqb levelStr "WARNING"
                  || String.eqb levelStr "warning"
                  || String.eqb levelStr "WARN" || String.eqb levelStr "warn"
          then (WARNING, true)
          else (INFO, false)
      end
  end.

Definition extractMessage (input : string) (hasLevel : bool) : string :=
  if negb hasLevel then input
  else
    match separatorPos input with
    | None => input
    | Some pos =>
        let message := substr_from input (pos + 1) in
        match find_first_not_of blanks message 0 with
        | None => ""
        | Some start => substr_from message start
        end
    end.

(** The read loop of [main] over the lines of standard input: "quit" or
    "exit" ends it, an empty line and a line with an empty message are
    passed over, every other line is queued. *)
Fixpoint read_lines (input : list string) (q : ThreadSafeQueue)
  : ThreadSafeQueue :=
  match input with
  | [] => q
  | line :: rest =>
      if String.eqb line "quit" || String.eqb line "exit" then q
      else
        match line with
        | EmptyString => read_lines rest q
        | _ =>
            let '(level, hasLevel) := parseLogLevel line in
            let message := extractMessage line hasLevel in
            match message with
            | EmptyString => read_lines rest q
            | _ => read_lines rest (push q (mkLogMessage message level))
            end
        end
  end.

(** Where a run of [loggerWorker] stands: it returned, it waits in [pop], or
    the steps allotted to it are used up. *)
Inductive WorkerState : Type :=
  | worker_returned
  | worker_waits
  | worker_unfinished.

Record WorkerOutcome (W B : Type) : Type := mkWorkerOutcome {
  worker_state : WorkerState;
  worker_logger : Logger B;
  worker_queue : ThreadSafeQueue;
  worker_world : W;
  worker_results : list bool
}.
Arguments mkWorkerOutcome {W B} _ _ _ _ _.
Arguments worker_state {W B} _.
Arguments worker_logger {W B} _.
Arguments worker_queue {W B} _.
Arguments worker_world {W B} _.
Arguments worker_results {W B} _.

Section Worker.

Variables TRACE_value ERROR_value FATAL_value : Z.
Context {W B : Type} `{!LogOutput W B}.

(** [loggerWorker]: [pop], [logger.log], again.  [clock k] is the time
    rendered for the [k]-th call of [log]; [n] counts the calls made so far.
    The complaint on [std::cerr] about a failed [log] is not recorded beyond
    the result itself. *)
Fixpoint loggerWorker (fuel : nat) (clock : nat -> string) (n : nat)
    (logger : Logger B) (queue : ThreadSafeQueue) (w : W)
  : WorkerOutcome W B :=
  match fuel with
  | O => mkWorkerOutcome worker_unfinished logger queue w []
  | S fuel' =>
      match pop queue with
      | (pop_waits, queue1) => mkWorkerOutcome worker_waits logger queue1 w []
      | (pop_false, queue1) =>
          mkWorkerOutcome worker_returned logger queue1 w []
      | (pop_true message, queue1) =>
          let out :=
            log TRACE_value ERROR_value FATAL_value logger (clock n)
              (text message) (level message) w in
          let rest :=
            loggerWorker fuel' clock (S n) (logger_after out) queue1
              (world_after out) in
          mkWorkerOutcome (worker_state rest) (worker_logger rest)
            (worker_queue rest) (worker_world rest)
            (returned out :: worker_results rest)
      end
  end.

End Worker.

End LoggerApp.

(** The spellings [parseLogLevel] knows, each with its level. *)
Definition level_words : list (string * LogLevel) :=
  [("DEBUG", DEBUG); ("debug", DEBUG); ("INFO", INFO); ("info", INFO);
   ("WARNING", WARNING); ("warning", WARNING); ("WARN", WARNING);
   ("warn", WARNING)].

(** The lines a logger at the given threshold writes for a run of queued
    messages, the first of them logged at clock reading [clock n]. *)
Fixpoint worker_lines (TRACE_value ERROR_value FATAL_value : Z)
    (clock : nat -> string) (n : nat) (threshold : LogLevel)
    (messages : list LoggerApp.LogMessage) : list string :=
  match messages with
  | [] => []
  | m :: rest =>
      let later :=
        worker_lines TRACE_value ERROR_value FATAL_value clock (S n) threshold
          rest in
      if (LogLevel_int TRACE_value ERROR_value FATAL_value (LoggerApp.level m)
          <? LogLevel_int TRACE_value ERROR_value FATAL_value threshold)%Z
      then later
      else formatMessage (clock n) (LoggerApp.text m) (LoggerApp.level m)
             :: later
  end.

(** The calls threads make on an [AsyncQueue], in the order in which they
    take the queue's lock. *)
Inductive QueueCall (T : Type) : Type :=
  | call_push (item : T)
  | call_pop
  | call_shutdown.
Arguments call_push {T} _.
Arguments call_pop {T}.
Arguments call_shutdown {T}.

Definition queue_call {T : Type} (q : AsyncQueue T) (c : QueueCall T)
  : AsyncQueue T :=
  match c with
  | call_push item => (push q item).2
  | call_pop => (pop q).2
  | call_shutdown => shutdown q
  end.

Definition queue_calls {T : Type} (q : AsyncQueue T)
    (calls : list (QueueCall T)) : AsyncQueue T :=
  fold_left queue_call calls q.

Definition carriage_return : ascii := ascii_of_nat 13.

(** * Properties *)

(** ** Facts about the level names *)

Lemma logLevelToString_upper (l : LogLevel) :
  transform_toupper (logLevelToString l) = logLevelToString l.
Proof. destruct l; reflexivity. Qed.

Lemma stringToLogLevel_cases (s : string) :
  let u := transform_toupper s in
  (u = "TRACE" /\ stringToLogLevel s = TRACE) \/
  (u = "DEBUG" /\ stringToLogLevel s = DEBUG) \/
  (u = "INFO" /\ stringToLogLevel s = INFO) \/
  (u = "WARNING" /\ stringToLogLevel s = WARNING) \/
  (u = "ERROR" /\ stringToLogLevel s = ERROR) \/
  (u = "FATAL" /\ stringToLogLevel s = FATAL) \/
  ((forall l, u <> logLevelToString l) /\ stringToLogLevel s = INFO).
Proof.
  intros u. unfold stringToLogLevel. fold u.
  destruct (String.eqb_spec u "TRACE") as [E1|N1]; [tauto|].
  destruct (String.eqb_spec u "DEBUG") as [E2|N2]; [tauto|].
  destruct (String.eqb_spec u "INFO") as [E3|N3]; [tauto|].
  destruct (String.eqb_spec u "WARNING") as [E4|N4]; [tauto|].
  destruct (String.eqb_spec u "ERROR") as [E5|N5]; [tauto|].
  destruct (String.eqb_spec u "FATAL") as [E6|N6]; [tauto|].
  do 6 right. split; [|reflexivity]. intros []; simpl; assumption.
Qed.

(** ** Logger::log *)

Section LogFacts.

Variables TRACE_value ERROR_value FATAL_value : Z.
Context {W B : Type} `{!LogOutput W B}.

Abbreviation level_int := (LogLevel_int TRACE_value ERROR_value FATAL_value).
Abbreviation log' := (log TRACE_value ERROR_value FATAL_value).

Lemma log_filtered (lg : Logger B) (time message : string) (level : LogLevel)
    (w : W) :
  (level_int level < level_int (defaultLevel_ lg))%Z ->
  log' lg time message level w = mkLogOutcome true lg w [].
Proof.
  intros Hlt. unfold log.
  destruct (Z.ltb_spec (level_int level) (level_int (defaultLevel_ lg)));
    [reflexivity | lia].
Qed.

Lemma log_no_output (lg : Logger B) (time message : string) (level : LogLevel)
    (w : W) :
  (level_int (defaultLevel_ lg) <= level_int level)%Z ->
  output_ lg = None ->
  log' lg time message level w = mkLogOutcome false lg w [].
Proof.
  intros Hge Hout. unfold log.
  destruct (Z.ltb_spec (level_int level) (level_int (defaultLevel_ lg)));
    [lia |].
  rewrite Hout. reflexivity.
Qed.

Lemma log_invalid_output (lg : Logger B) (time message : string)
    (level : LogLevel) (w : W) (b : B) :
  (level_int (defaultLevel_ lg) <= level_int level)%Z ->
  output_ lg = Some b ->
  isValid b = false ->
  log' lg time message level w = mkLogOutcome false lg w [call_isValid].
Proof.
  intros Hge Hout Hinv. unfold log.
  destruct (Z.ltb_spec (level_int level) (level_int (defaultLevel_ lg)));
    [lia |].
  rewrite Hout, Hinv. reflexivity.
Qed.

Lemma log_written (lg : Logger B) (time message : string) (level : LogLevel)
    (w : W) (b : B) :
  (level_int (defaultLevel_ lg) <= level_int level)%Z ->
  output_ lg = Some b ->
  isValid b = true ->
  let fm := formatMessage time message level in
  log' lg time message level w =
    mkLogOutcome (writeLog b fm w).1.1
      (set_output lg (Some (writeLog b fm w).1.2)) (writeLog b fm w).2
      [call_isValid; call_writeLog fm].
Proof.
  intros Hge Hout Hval fm. unfold log.
  destruct (Z.ltb_spec (level_int level) (level_int (defaultLevel_ lg)));
    [lia |].
  rewrite Hout, Hval. simpl. fold fm.
  destruct (writeLog b fm w) as [[r b1] w1]. reflexivity.
Qed.

(** Whatever [log] does, the only message it can hand to the backend is the
    formatted one. *)
Lemma log_emits_only_formatted (lg : Logger B) (time message : string)
    (level : LogLevel) (w : W) (s : string) :
  emitted (log' lg time message level w) s ->
  s = formatMessage time message level /\
  (level_int (defaultLevel_ lg) <= level_int level)%Z /\
  exists b, output_ lg = Some b /\ isValid b = true.
Proof.
  unfold emitted, log.
  destruct (Z.ltb_spec (level_int level) (level_int (defaultLevel_ lg)))
    as [Hlt | Hge]; simpl; [tauto |].
  destruct (output_ lg) as [b |] eqn:Hout; simpl; [| tauto].
  destruct (isValid b) eqn:Hval; simpl.
  - destruct (writeLog b (formatMessage time message level) w) as [[r b1] w1].
    simpl. intros [Hc | [Hc | []]]; [discriminate |].
    injection Hc as <-. split; [reflexivity |]. split; [assumption |].
    exists b. split; [reflexivity | exact Hval].
  - intros [Hc | []]. discriminate.
Qed.

(** The last-error slot is not among the fields [log] assigns. *)
Lemma log_keeps_last_error (lg : Logger B) (time message : string)
    (level : LogLevel) (w : W) :
  last_error_ (logger_after (log' lg time message level w)) = last_error_ lg /\
  last_error_message_ (logger_after (log' lg time message level w)) =
    last_error_message_ lg.
Proof.
  unfold log.
  destruct (level_int level <? level_int (defaultLevel_ lg))%Z; simpl;
    [tauto |].
  destruct (output_ lg) as [b |]; simpl; [| tauto].
  destruct (isValid b); simpl; [| tauto].
  destruct (writeLog b (formatMessage time message level) w) as [[r b1] w1].
  simpl. tauto.
Qed.

End LogFacts.

(** C1. For every message level L1 and threshold L2 = [defaultLevel_], under
    the integer order of the levels (in which DEBUG < INFO < WARNING):
    [log] hands a message to the backend only when L1 >= L2, and with a
    backend that is present and valid it hands over the formatted message
    exactly when L1 >= L2.  When L1 < L2 it returns true and makes no call
    on the backend; when L1 >= L2 and the backend is absent, or present and
    not valid, it returns false and [writeLog] is not called, and in these
    cases the logger and the world outside stay as they were; otherwise it
    calls [writeLog] once on the formatted message, returns its result, and
    the backend and the world are those [writeLog] left behind. *)
Theorem log_level_filtering (TRACE_value ERROR_value FATAL_value : Z)
    {W B : Type} `{!LogOutput W B}
    (lg : Logger B) (time message : string) (L1 : LogLevel) (w : W) :
  let int := LogLevel_int TRACE_value ERROR_value FATAL_value in
  let L2 := defaultLevel_ lg in
  let out := log TRACE_value ERROR_value FATAL_value lg time message L1 w in
  let fm := formatMessage time message L1 in
  (int DEBUG < int INFO < int WARNING)%Z /\
  (forall s, emitted out s -> (int L2 <= int L1)%Z) /\
  (forall b, output_ lg = Some b -> isValid b = true ->
     (emitted out fm <-> (int L2 <= int L1)%Z)) /\
  ((int L1 < int L2)%Z ->
     returned out = true /\ backend_calls out = [] /\
     logger_after out = lg /\ world_after out = w) /\
  ((int L2 <= int L1)%Z -> output_ lg = None ->
     returned out = false /\ backend_calls out = [] /\
     logger_after out = lg /\ world_after out = w) /\
  ((int L2 <= int L1)%Z ->
     forall b, output_ lg = Some b -> isValid b = false ->
     returned out = false /\ backend_calls out = [call_isValid] /\
     logger_after out = lg /\ world_after out = w) /\
  ((int L2 <= int L1)%Z ->
     forall b, output_ lg = Some b -> isValid b = true ->
     returned out = (writeLog b fm w).1.1 /\
     backend_calls out = [call_isValid; call_writeLog fm] /\
     logger_after out = set_output lg (Some (writeLog b fm w).1.2) /\
     world_after out = (writeLog b fm w).2).
Proof.
  intros int L2 out fm.
  split; [simpl; lia |].
  split.
  { intros s Hs. apply log_emits_only_formatted in Hs. tauto. }
  split.
  { intros b Hout Hval. split.
    - intros Hs. apply log_emits_only_formatted in Hs. tauto.
    - intros Hge. unfold emitted, out.
      rewrite (log_written _ _ _ lg time message L1 w b Hge Hout Hval).
      simpl. right. left. reflexivity. }
  split.
  { intros Hlt. unfold out. rewrite log_filtered by exact Hlt.
    simpl. tauto. }
  split.
  { intros Hge Hout. unfold out. rewrite log_no_output by assumption.
    simpl. tauto. }
  split.
  { intros Hge b Hout Hinv. unfold out.
    rewrite (log_invalid_output _ _ _ lg time message L1 w b) by assumption.
    simpl. tauto. }
  intros Hge b Hout Hval. unfold out.
  rewrite (log_written _ _ _ lg time message L1 w b Hge Hout Hval).
  simpl. tauto.
Qed.

(** ** AsyncQueue *)

Section QueueFacts.

Context {T : Type}.
Implicit Types (q : AsyncQueue T) (item : T) (items : list T).

Lemma push_full q item :
  (max_size_ q <= queue_size q)%N -> push q item = (false, q).
Proof.
  intros Hfull. unfold push.
  destruct (N.leb_spec (max_size_ q) (queue_size q)); [reflexivity | lia].
Qed.

Lemma push_room q item :
  (queue_size q < max_size_ q)%N ->
  push q item =
    (true, mkAsyncQueue (queue_ q ++ [item]) (shutdown_ q) (max_size_ q)).
Proof.
  intros Hroom. unfold push.
  destruct (N.leb_spec (max_size_ q) (queue_size q)); [lia | reflexivity].
Qed.

Lemma push_all_app q items1 items2 :
  push_all q (items1 ++ items2) =
    (((push_all q items1).1 ++ (push_all (push_all q items1).2 items2).1)%list,
     (push_all (push_all q items1).2 items2).2).
Proof.
  revert q. induction items1 as [| x xs IH]; intros q; simpl.
  - destruct (push_all q items2). reflexivity.
  - destruct (push q x) as [r q1]. rewrite IH.
    destruct (push_all q1 xs) as [rs q2]. simpl.
    destruct (push_all q2 items2). reflexivity.
Qed.

(** As long as the items fit under the bound, every push is accepted and the
    items line up behind those already queued. *)
Lemma push_all_fit items : forall old sh max,
  (N.of_nat (List.length old + List.length items) <= max)%N ->
  push_all (mkAsyncQueue old sh max) items =
    (repeat true (List.length items), mkAsyncQueue (old ++ items) sh max).
Proof.
  induction items as [| x xs IH]; intros old sh max Hfit; simpl.
  - rewrite app_nil_r. reflexivity.
  - simpl in Hfit. rewrite push_room by (unfold queue_size; simpl; lia).
    simpl. rewrite IH by (rewrite length_app; simpl; lia).
    rewrite <- app_assoc. reflexivity.
Qed.

Lemma pop_front item items sh max :
  pop (mkAsyncQueue (item :: items) sh max) =
    (pop_true item, mkAsyncQueue items sh max).
Proof. unfold pop, queue_empty. simpl. destruct sh; reflexivity. Qed.

Lemma pop_empty_shutdown max :
  pop (mkAsyncQueue (@nil T) true max) = (pop_false, mkAsyncQueue [] true max).
Proof. reflexivity. Qed.

Lemma pop_empty_running max :
  pop (mkAsyncQueue (@nil T) false max) = (pop_waits, mkAsyncQueue [] false max).
Proof. reflexivity. Qed.

(** Popping as many times as there are items, and then [m] times more. *)
Lemma pop_n_items items : forall sh max m,
  pop_n (List.length items + m) (mkAsyncQueue items sh max) =
    ((List.map pop_true items ++ (pop_n m (mkAsyncQueue [] sh max)).1)%list,
     (pop_n m (mkAsyncQueue [] sh max)).2).
Proof.
  induction items as [| x xs IH]; intros sh max m; simpl.
  - destruct (pop_n m (mkAsyncQueue [] sh max)). reflexivity.
  - rewrite pop_front. rewrite IH.
    destruct (pop_n m (mkAsyncQueue [] sh max)). reflexivity.
Qed.

End QueueFacts.

(** C2. [push] on a queue whose size has reached [max_size_] returns false
    and leaves the queue as it was ([push] has no waiting outcome at all);
    below the bound it appends the item and returns true.  So [max_size + 1]
    pushes on a fresh queue with no consumer are accepted except the last,
    and [max_size] calls of [pop] then return the accepted items in the
    order they were pushed. *)
Theorem push_backpressure {T : Type} :
  (forall (q : AsyncQueue T) (item : T),
     (max_size_ q <= queue_size q)%N -> push q item = (false, q)) /\
  (forall (q : AsyncQueue T) (item : T),
     (queue_size q < max_size_ q)%N ->
     push q item =
       (true, mkAsyncQueue (queue_ q ++ [item]) (shutdown_ q) (max_size_ q))) /\
  (forall (max_size : N) (items : list T) (extra : T),
     N.of_nat (List.length items) = max_size ->
     let pushed := push_all (AsyncQueue_new max_size) (items ++ [extra]) in
     pushed.1 = (repeat true (List.length items) ++ [false])%list /\
     queue_ pushed.2 = items /\
     pop_n (List.length items) pushed.2 =
       (List.map pop_true items, AsyncQueue_new max_size)).
Proof.
  split; [exact push_full |]. split; [exact push_room |].
  intros max_size items extra Hlen pushed.
  assert (Hp : pushed =
    ((repeat true (List.length items) ++ [false])%list,
     mkAsyncQueue items false max_size)).
  { unfold pushed, AsyncQueue_new. rewrite push_all_app.
    rewrite push_all_fit by (simpl; lia). simpl.
    rewrite push_full by (unfold queue_size; simpl; lia). reflexivity. }
  rewrite Hp. simpl. split; [reflexivity |]. split; [reflexivity |].
  pose proof (pop_n_items items false max_size 0) as Hpop.
  rewrite Nat.add_0_r in Hpop. rewrite Hpop. simpl.
  rewrite app_nil_r. reflexivity.
Qed.

(** C3. After [shutdown()] on a queue holding K items, the next K calls of
    [pop] return true with those items in queue order, and the call after
    them returns false; a second [shutdown()] leaves the queue as the first
    one left it. *)
Theorem shutdown_drains {T : Type} (q : AsyncQueue T) :
  pop_n (S (List.length (queue_ q))) (shutdown q) =
    ((List.map pop_true (queue_ q) ++ [pop_false])%list,
     mkAsyncQueue [] true (max_size_ q)) /\
  shutdown (shutdown q) = shutdown q.
Proof.
  split; [| reflexivity].
  unfold shutdown.
  replace (S (List.length (queue_ q))) with (List.length (queue_ q) + 1)%nat
    by lia.
  rewrite pop_n_items. reflexivity.
Qed.

(** C10. [push] never reads [shutdown_]: after [shutdown()] it answers as it
    would have before, so an item that fits under [max_size_] is still
    appended and [push] returns true. *)
Theorem push_after_shutdown {T : Type} (q : AsyncQueue T) (item : T) :
  (push (shutdown q) item).1 = (push q item).1 /\
  ((queue_size q < max_size_ q)%N ->
   push (shutdown q) item =
     (true, mkAsyncQueue (queue_ q ++ [item]) true (max_size_ q))).
Proof.
  split.
  - unfold push, shutdown, queue_size. simpl.
    destruct (max_size_ q <=? N.of_nat (List.length (queue_ q)))%N;
      reflexivity.
  - intros Hroom. rewrite push_room; [reflexivity |].
    unfold queue_size, shutdown in *. simpl. exact Hroom.
Qed.

(** ** Level names *)

(** C4. Converting a level to its name and back gives the level again, for
    DEBUG, INFO and WARNING (and for the other levels [Logger.cpp] names);
    the names [stringToLogLevel] recognises are matched whatever the letter
    case: a string equal to a level's name up to letter case converts to
    that level; and every string that is not a recognised name, in any
    letter case, converts to INFO. *)
Theorem level_name_round_trip :
  (forall L : LogLevel, stringToLogLevel (logLevelToString L) = L) /\
  (forall (L : LogLevel) (S : string),
     eq_nocase S (logLevelToString L) -> stringToLogLevel S = L) /\
  (forall S : string,
     (forall L : LogLevel, ~ eq_nocase S (logLevelToString L)) ->
     stringToLogLevel S = INFO).
Proof.
  split; [intros []; reflexivity |].
  split.
  - intros L S HS. unfold eq_nocase in HS.
    rewrite logLevelToString_upper in HS.
    unfold stringToLogLevel. rewrite HS. destruct L; reflexivity.
  - intros S HS.
    destruct (stringToLogLevel_cases S)
      as [[E _] | [[E _] | [[_ R] | [[E _] | [[E _] | [[E _] | [_ R]]]]]]];
      try exact R.
    + exfalso. apply (HS TRACE). unfold eq_nocase. rewrite E. reflexivity.
    + exfalso. apply (HS DEBUG). unfold eq_nocase. rewrite E. reflexivity.
    + exfalso. apply (HS WARNING). unfold eq_nocase. rewrite E. reflexivity.
    + exfalso. apply (HS ERROR). unfold eq_nocase. rewrite E. reflexivity.
    + exfalso. apply (HS FATAL). unfold eq_nocase. rewrite E. reflexivity.
Qed.

Lemma level_name_round_trip_witness :
  stringToLogLevel "Warning" = WARNING /\ stringToLogLevel "unknown" = INFO.
Proof.
  destruct level_name_round_trip as [_ [Hname Hother]].
  split.
  - apply (Hname WARNING "Warning"). reflexivity.
  - apply (Hother "unknown"). intros []; unfold eq_nocase; simpl; discriminate.
Defined.

(** ** Configuration and the default level *)

(** C5, as the code has it.  After [setConfig(c)] the fields [defaultLevel_]
    and [config_.defaultLevel] are equal (both are [c.defaultLevel]).
    [setDefaultLevel(l)] assigns [defaultLevel_] and leaves [config_] as it
    was, so after it the two fields are equal exactly when
    [config_.defaultLevel] already was [l]. *)
Theorem default_level_and_config {B : Type} (lg : Logger B)
    (c : LoggerConfig) (l : LogLevel) :
  (config_ (setConfig lg c) = c /\
   defaultLevel_ (setConfig lg c) = defaultLevel (config_ (setConfig lg c))) /\
  (defaultLevel_ (setDefaultLevel lg l) = l /\
   config_ (setDefaultLevel lg l) = config_ lg) /\
  (defaultLevel_ (setDefaultLevel lg l) =
     defaultLevel (config_ (setDefaultLevel lg l))
   <-> defaultLevel (config_ lg) = l).
Proof.
  repeat split; simpl; intros; congruence.
Qed.

(** A logger made by [Logger(host, port, INFO)] and then given
    [setDefaultLevel(WARNING)] filters at WARNING while its configuration
    still says INFO. *)
Lemma setDefaultLevel_leaves_config_behind :
  let lg := Logger_socket (mkConnectAnswers 3 1 0) "127.0.0.1" 9000 INFO SUCCESS in
  defaultLevel_ (setDefaultLevel lg WARNING) = WARNING /\
  defaultLevel (config_ (setDefaultLevel lg WARNING)) = INFO /\
  defaultLevel_ (setDefaultLevel lg WARNING) <>
    defaultLevel (config_ (setDefaultLevel lg WARNING)).
Proof.
  simpl. repeat split. discriminate.
Qed.

(** ** SocketOutput *)

Lemma sys_send_one_call (fd : Z) (buf : string) (net : Net) :
  send_calls (sys_send fd buf net).2 = (send_calls net ++ [(fd, buf)])%list.
Proof. unfold sys_send. destruct (send_returns net); reflexivity. Qed.

(** C6, as the code has it.  On a connected socket [writeLog] calls [send]
    once, with the message and a line feed, and never a second time.  A
    negative result clears [connected_], so that [isValid()] is false from
    then on, and [writeLog] returns false.  A partial send (a result that is
    not negative and differs from the number of bytes requested) makes
    [writeLog] return false as well and leaves the socket as it was, still
    valid.  A complete send returns true. *)
Theorem socket_writeLog_outcomes (s : SocketOutput) (formattedMessage : string)
    (net : Net) :
  connected_ s = true -> (0 <= socket_fd_ s)%Z ->
  let message := formattedMessage ++ newline in
  let requested := Z.of_nat (String.length message) in
  let sent := (sys_send (socket_fd_ s) message net).1 in
  let '(r, s', net') := SocketOutput_writeLog s formattedMessage net in
  send_calls net' = (send_calls net ++ [(socket_fd_ s, message)])%list /\
  ((sent < 0)%Z -> r = false /\ SocketOutput_isValid s' = false) /\
  ((0 <= sent)%Z -> sent <> requested ->
     r = false /\ s' = s /\ SocketOutput_isValid s' = true) /\
  (sent = requested -> r = true /\ s' = s).
Proof.
  intros Hc Hfd message requested sent.
  unfold SocketOutput_writeLog. rewrite Hc. simpl.
  destruct (Z.ltb_spec (socket_fd_ s) 0) as [Hneg | _]; [lia |].
  fold message.
  pose proof (sys_send_one_call (socket_fd_ s) message net) as Hcalls.
  unfold sent. destruct (sys_send (socket_fd_ s) message net) as [n net1].
  simpl in *. fold requested.
  destruct (Z.ltb_spec n 0) as [Hn | Hn].
  - split; [exact Hcalls |]. split; [intros _; split; reflexivity |].
    split; [lia |]. intros ->. unfold requested in Hn. lia.
  - split; [exact Hcalls |]. split; [lia |]. split.
    + intros _ Hne. split; [apply Z.eqb_neq; exact Hne |].
      split; [reflexivity |]. unfold SocketOutput_isValid. rewrite Hc.
      simpl. apply Z.leb_le. exact Hfd.
    + intros ->. split; [apply Z.eqb_refl | reflexivity].
Qed.

Lemma socket_writeLog_outcomes_witness :
  let s := mkSocketOutput 3 "127.0.0.1" 9000 true in
  (SocketOutput_writeLog s "ab" (mkNet [(-1)%Z] [])).1.1 = false /\
  SocketOutput_isValid (SocketOutput_writeLog s "ab" (mkNet [(-1)%Z] [])).1.2
    = false.
Proof.
  intros s.
  pose proof (socket_writeLog_outcomes s "ab" (mkNet [(-1)%Z] [])
                eq_refl ltac:(simpl; lia)) as H.
  simpl in H. destruct H as [_ [H _]]. apply H. lia.
Defined.

(** A connected socket, a three-byte message and a [send] that takes two
    bytes: [writeLog] returns false, and [isValid()] is still true. *)
Lemma partial_send_keeps_socket_valid :
  let s := mkSocketOutput 3 "127.0.0.1" 9000 true in
  let '(r, s', net') := SocketOutput_writeLog s "ab" (mkNet [2%Z] []) in
  SocketOutput_isValid s = true /\
  r = false /\
  SocketOutput_isValid s' = true /\
  send_calls net' = [(3%Z, "ab" ++ newline)].
Proof.
  simpl. repeat split.
Qed.

(** ** The last-error slot *)

(** C7, as the code has it.  [getLastError] and [getLastErrorMessage] return
    the fields [last_error_] and [last_error_message_], and no operation of
    the logger assigns them: after [log], whatever it returned, and after
    [setDefaultLevel] and [setConfig], both hold what they held before.  A
    failed [log] leaves no trace in the slot. *)
Theorem last_error_never_written (TRACE_value ERROR_value FATAL_value : Z)
    {W B : Type} `{!LogOutput W B}
    (lg : Logger B) (time message : string) (level : LogLevel) (w : W)
    (c : LoggerConfig) (l : LogLevel) :
  let out := log TRACE_value ERROR_value FATAL_value lg time message level w in
  (getLastError (logger_after out) = getLastError lg /\
   getLastErrorMessage (logger_after out) = getLastErrorMessage lg) /\
  (getLastError (setDefaultLevel lg l) = getLastError lg /\
   getLastErrorMessage (setDefaultLevel lg l) = getLastErrorMessage lg) /\
  (getLastError (setConfig lg c) = getLastError lg /\
   getLastErrorMessage (setConfig lg c) = getLastErrorMessage lg).
Proof.
  intros out. split; [| split; split; reflexivity].
  unfold getLastError, getLastErrorMessage, out.
  apply log_keeps_last_error.
Qed.

(** A logger on a connected socket whose slot reads SUCCESS and the empty
    message; [send] fails, [log] returns false, and the slot still reads
    SUCCESS and the empty message.  (TRACE, ERROR and FATAL are given the
    integers -1, 3 and 4; the levels compared are INFO and WARNING.) *)
Lemma failed_log_leaves_last_error :
  let lg := Logger_socket (mkConnectAnswers 3 1 0) "127.0.0.1" 9000 INFO SUCCESS in
  let out := log (-1) 3 4 lg "2024-01-01 00:00:00.000" "disk full" WARNING
               (mkNet [(-1)%Z] []) in
  getLastError lg = SUCCESS /\ getLastErrorMessage lg = "" /\
  backend_calls out =
    [call_isValid;
     call_writeLog "[2024-01-01 00:00:00.000] [WARNING] disk full"] /\
  returned out = false /\
  getLastError (logger_after out) = SUCCESS /\
  getLastErrorMessage (logger_after out) = "".
Proof.
  simpl. repeat split.
Qed.

(** ** LogRotator *)

(** C8. For a rotator constructed with [max_size_mb = M],
    [shouldRotate(currentSize)] is true exactly when
    [currentSize >= M * 1024 * 1024]. *)
Theorem shouldRotate_threshold (base_filename : string) (M max_files : N)
    (compress : bool) (currentSize : N) :
  shouldRotate (LogRotator_new base_filename M max_files compress) currentSize
    = true
  <-> (M * 1024 * 1024 <= currentSize)%N.
Proof.
  unfold shouldRotate, LogRotator_new. simpl. apply N.leb_le.
Qed.

Lemma shouldRotate_threshold_witness :
  shouldRotate (LogRotator_new "app.log" 1 3 false) 1048576 = true /\
  shouldRotate (LogRotator_new "app.log" 1 3 false) 1048575 = false.
Proof.
  split.
  - apply (shouldRotate_threshold "app.log" 1 3 false 1048576). lia.
  - apply not_true_is_false. intros H.
    apply (shouldRotate_threshold "app.log" 1 3 false 1048575) in H. lia.
Defined.

(** ** The statistics collector *)

(** C9. Starting from fresh statistics, the three lines
    "[2024-01-01 00:00:00.000] [INFO] hi",
    "[2024-01-01 00:00:00.001] [WARNING] bye" and
    "[2024-01-01 00:00:00.002] [INFO] ok", received at any clock readings,
    leave totalMessages = 3, two messages counted for INFO, one for WARNING,
    minLength = 2 and maxLength = 3. *)
Theorem stats_three_lines (hour t0 t1 t2 t3 : Z) :
  let st :=
    receive_lines hour (LogStatistics_new t0)
      [("[2024-01-01 00:00:00.000] [INFO] hi", t1);
       ("[2024-01-01 00:00:00.001] [WARNING] bye", t2);
       ("[2024-01-01 00:00:00.002] [INFO] ok", t3)] in
  totalMessages st = 3%N /\
  messagesByLevel st !! INFO = Some 2%N /\
  messagesByLevel st !! WARNING = Some 1%N /\
  minLength st = 2%N /\
  maxLength st = 3%N.
Proof.
  intros st. repeat split; vm_compute; reflexivity.
Qed.

(** ** The theorems at concrete inputs *)

(** A logger at threshold INFO on a connected socket: a DEBUG message is
    dropped without a call on the backend; a WARNING message is formatted
    and sent, and the network and the logger are the ones [writeLog] left. *)

Lemma log_level_filtering_witness :
  let lg := Logger_socket (mkConnectAnswers 3 1 0) "127.0.0.1" 9000 INFO SUCCESS in
  let net := mkNet [42%Z] [] in
  let low := log (-1) 3 4 lg "2024-01-01 00:00:00.000" "noise" DEBUG net in
  let high := log (-1) 3 4 lg "2024-01-01 00:00:00.000" "alarm" WARNING net in
  returned low = true /\ backend_calls low = [] /\ world_after low = net /\
  emitted high "[2024-01-01 00:00:00.000] [WARNING] alarm" /\
  returned high = true /\
  world_after high =
    mkNet [] [(3%Z, "[2024-01-01 00:00:00.000] [WARNING] alarm" ++ newline)] /\
  output_ (logger_after high) = Some (mkSocketOutput 3 "127.0.0.1" 9000 true).
Proof.
  intros lg net low high.
  destruct (log_level_filtering (-1) 3 4 lg "2024-01-01 00:00:00.000" "noise"
              DEBUG net) as (_ & _ & _ & Hlow & _).
  destruct (log_level_filtering (-1) 3 4 lg "2024-01-01 00:00:00.000" "alarm"
              WARNING net) as (_ & _ & Hiff & _ & _ & _ & Hwrite).
  destruct (Hlow ltac:(simpl; lia)) as (L1 & L2 & _ & L4).
  destruct (Hwrite ltac:(simpl; lia) (mkSocketOutput 3 "127.0.0.1" 9000 true)
              eq_refl eq_refl) as (W1 & _ & W3 & W4).
  split; [exact L1 |]. split; [exact L2 |]. split; [exact L4 |].
  split.
  { apply (Hiff (mkSocketOutput 3 "127.0.0.1" 9000 true));
      [reflexivity | reflexivity | simpl; lia]. }
  split; [unfold high; rewrite W1; reflexivity |].
  split; [unfold high; rewrite W4; reflexivity |].
  unfold high. rewrite W3. reflexivity.
Defined.

Lemma push_backpressure_witness :
  push (mkAsyncQueue [1%nat; 2%nat] false 2) 3%nat =
    (false, mkAsyncQueue [1%nat; 2%nat] false 2) /\
  push (mkAsyncQueue [1%nat] false 2) 2%nat =
    (true, mkAsyncQueue [1%nat; 2%nat] false 2) /\
  (push_all (AsyncQueue_new 2) [1%nat; 2%nat; 3%nat]).1 = [true; true; false].
Proof.
  destruct (@push_backpressure nat) as (Hfull & Hroom & Hall).
  split; [apply Hfull; vm_compute; discriminate |].
  split; [apply (Hroom (mkAsyncQueue [1%nat] false 2)); vm_compute; reflexivity |].
  apply (Hall 2%N [1%nat; 2%nat] 3%nat). reflexivity.
Defined.

Lemma push_after_shutdown_witness :
  push (shutdown (mkAsyncQueue [1%nat] false 2)) 2%nat =
    (true, mkAsyncQueue [1%nat; 2%nat] true 2).
Proof.
  apply (push_after_shutdown (mkAsyncQueue [1%nat] false 2) 2%nat).
  vm_compute. reflexivity.
Defined.

Lemma default_level_and_config_witness :
  let lg := Logger_socket (mkConnectAnswers 3 1 0) "127.0.0.1" 9000 INFO SUCCESS in
  defaultLevel_ (setDefaultLevel lg INFO) =
    defaultLevel (config_ (setDefaultLevel lg INFO)).
Proof.
  intros lg.
  apply (default_level_and_config lg LoggerConfig_default INFO).
  reflexivity.
Defined.

(** * Further properties of the code *)

(** ** Strings *)

Lemma append_cons (c : ascii) (s t : string) :
  String c s ++ t = String c (s ++ t).
Proof. reflexivity. Qed.

Lemma append_nil_r (s : string) : s ++ "" = s.
Proof.
  induction s as [| c s IH]; [reflexivity |].
  rewrite append_cons, IH. reflexivity.
Qed.

Lemma append_assoc (s t u : string) : (s ++ t) ++ u = s ++ t ++ u.
Proof.
  induction s as [| c s IH]; [reflexivity |].
  rewrite !append_cons, IH. reflexivity.
Qed.

Lemma length_append (s t : string) :
  String.length (s ++ t) = (String.length s + String.length t)%nat.
Proof.
  induction s as [| c s IH]; [reflexivity |].
  rewrite append_cons. simpl. rewrite IH. reflexivity.
Qed.

Lemma string_find_shift (ch : ascii) (p s : string) (pos : nat) :
  string_find ch (p ++ s) (String.length p + pos) =
    option_map (Nat.add (String.length p)) (string_find ch s pos).
Proof.
  induction p as [| c p IH].
  - change ("" ++ s) with s. simpl. destruct (string_find ch s pos); reflexivity.
  - rewrite append_cons. simpl. rewrite IH.
    destruct (string_find ch s pos); reflexivity.
Qed.

Lemma string_find_free (ch : ascii) (p s : string) :
  char_free ch p = true ->
  string_find ch (p ++ String ch s) 0 = Some (String.length p).
Proof.
  induction p as [| c p IH]; intros Hfree.
  - change ("" ++ String ch s) with (String ch s). simpl.
    rewrite Ascii.eqb_refl. reflexivity.
  - rewrite append_cons. simpl in *.
    apply andb_true_iff in Hfree as [Hc Hp].
    apply negb_true_iff in Hc. rewrite Hc, (IH Hp). reflexivity.
Qed.

Lemma string_find_none (ch : ascii) (s : string) :
  string_find ch s 0 = None <-> char_free ch s = true.
Proof.
  induction s as [| c s IH]; simpl; [tauto |].
  destruct (Ascii.eqb c ch); simpl.
  - split; discriminate.
  - rewrite <- IH. destruct (string_find ch s 0); simpl; split;
      congruence.
Qed.

Lemma substr_from_0 (s : string) : substr_from s 0 = s.
Proof. destruct s; reflexivity. Qed.

(** The text found by [find] splits the string: before it the character
    does not occur. *)
Lemma string_find_cut (ch : ascii) (s : string) (pos : nat) :
  string_find ch s 0 = Some pos ->
  s = String.substring 0 pos s ++ String ch (substr_from s (pos + 1)) /\
  char_free ch (String.substring 0 pos s) = true /\
  (pos < String.length s)%nat.
Proof.
  revert pos. induction s as [| c s IH]; intros pos; simpl; [discriminate |].
  destruct (Ascii.eqb_spec c ch) as [-> | Hne].
  - intros [= <-]. simpl. rewrite substr_from_0. repeat split. lia.
  - destruct (string_find ch s 0) as [i |]; simpl; [| discriminate].
    intros [= <-]. destruct (IH i eq_refl) as (Heq & Hfree & Hlt).
    simpl. rewrite append_cons, <- Heq. repeat split; [| lia].
    rewrite Hfree. destruct (Ascii.eqb_spec c ch); [contradiction | reflexivity].
Qed.

Lemma substr_from_shift (p s : string) (k : nat) :
  substr_from (p ++ s) (String.length p + k) = substr_from s k.
Proof.
  induction p as [| c p IH]; [reflexivity |].
  rewrite append_cons. simpl. exact IH.
Qed.

Lemma substring_shift (p s : string) (k m : nat) :
  String.substring (String.length p + k) m (p ++ s) = String.substring k m s.
Proof.
  induction p as [| c p IH]; [reflexivity |].
  rewrite append_cons. simpl. exact IH.
Qed.

Lemma substring_prefix (m r : string) :
  String.substring 0 (String.length m) (m ++ r) = m.
Proof.
  induction m as [| c m IH].
  - simpl. destruct r; reflexivity.
  - rewrite append_cons. simpl. rewrite IH. reflexivity.
Qed.

Lemma find_first_not_of_shift (chars p s : string) (pos : nat) :
  find_first_not_of chars (p ++ s) (String.length p + pos) =
    option_map (Nat.add (String.length p)) (find_first_not_of chars s pos).
Proof.
  induction p as [| c p IH].
  - change ("" ++ s) with s. simpl.
    destruct (find_first_not_of chars s pos); reflexivity.
  - rewrite append_cons. simpl. rewrite IH.
    destruct (find_first_not_of chars s pos); reflexivity.
Qed.

(** What [find_first_not_of(" \t")] and [substr] make of a string is the
    string without its leading blanks. *)
Lemma find_first_not_of_skip (s : string) :
  match find_first_not_of blanks s 0 with
  | None => EmptyString
  | Some start => substr_from s start
  end = skip_blanks s.
Proof.
  induction s as [| c s IH]; [reflexivity |].
  cbn [find_first_not_of skip_blanks].
  destruct (char_in c blanks); [| reflexivity].
  rewrite <- IH. destruct (find_first_not_of blanks s 0); reflexivity.
Qed.

Lemma skip_blanks_head (s : string) :
  match skip_blanks s with
  | EmptyString => True
  | String c _ => char_in c blanks = false
  end.
Proof.
  induction s as [| c s IH]; [exact I |].
  cbn [skip_blanks].
  destruct (char_in c blanks) eqn:E; [exact IH | exact E].
Qed.

(** ** The wire format: what the logger writes, the collector reads *)

(** A line of the shape "[time] [name] message": [parseLogMessage] finds the
    four brackets where they are. *)
Lemma parse_of_shape (time name message : string) :
  char_free "]" time = true ->
  char_free "]" name = true ->
  parseLogMessage
    (String "[" time ++ String "]" (String " " (String "[" (name ++ String "]" (String " " message)))))
  = Some (skip_blanks message, stringToLogLevel name).
Proof.
  intros Ht Hn1.
  set (A := String "["%char time).
  set (R2 := String "]"%char (String " "%char message)).
  change (String "[" (name ++ R2)) with (String "[" name ++ R2).
  set (N1 := String "["%char name).
  set (R1 := String "]"%char (String " "%char (N1 ++ R2))).
  assert (HA : char_free "]" A = true) by (simpl; exact Ht).
  assert (HN : char_free "]" N1 = true) by (simpl; exact Hn1).
  unfold parseLogMessage.
  assert (H1 : string_find "[" (A ++ R1) 0 = Some 0%nat) by reflexivity.
  rewrite H1.
  assert (H2 : string_find "]" (A ++ R1) 0 = Some (String.length A)).
  { apply string_find_free. exact HA. }
  rewrite H2.
  assert (H3 : string_find "[" (A ++ R1) (String.length A) = Some (String.length A + 2)%nat).
  { rewrite <- (Nat.add_0_r (String.length A)) at 1. rewrite string_find_shift. reflexivity. }
  rewrite H3.
  assert (H4 : string_find "]" (A ++ R1) (String.length A + 2) = Some (String.length A + (2 + String.length N1))%nat).
  { rewrite string_find_shift. unfold R1. simpl. unfold R2.
    rewrite (string_find_free "]" name (String " " message) Hn1). reflexivity. }
  rewrite H4.
  replace (String.length A + 2 + 1)%nat with (String.length A + 3)%nat by lia.
  replace (String.length A + (2 + String.length N1) - (String.length A + 2) - 1)%nat
    with (String.length name) by (simpl; lia).
  replace (String.length A + (2 + String.length N1) + 1)%nat
    with (String.length A + (2 + (String.length N1 + 1)))%nat by lia.
  rewrite substring_shift, find_first_not_of_shift.
  unfold R1 at 1. simpl String.substring.
  rewrite substring_prefix.
  change (find_first_not_of blanks (String "]" (String " " (N1 ++ R2)))
            (2 + (String.length N1 + 1)))
    with (option_map S (option_map S
            (find_first_not_of blanks (N1 ++ R2) (String.length N1 + 1)))).
  rewrite find_first_not_of_shift.
  change (find_first_not_of blanks R2 1)
    with (option_map S (option_map S (find_first_not_of blanks message 0))).
  pose proof (find_first_not_of_skip message) as Hskip.
  destruct (find_first_not_of blanks message 0) as [i |]; cbn [option_map].
  - rewrite substr_from_shift.
    change (substr_from R1 (S (S (String.length N1 + S (S i)))))
      with (substr_from (N1 ++ R2) (String.length N1 + S (S i))).
    rewrite substr_from_shift. unfold R2. simpl substr_from.
    rewrite Hskip. reflexivity.
  - rewrite Hskip. reflexivity.
Qed.

Lemma level_name_free (ch : ascii) (l : LogLevel) :
  ch = "]"%char \/ ch = "["%char ->
  char_free ch (logLevelToString l) = true.
Proof. intros [-> | ->]; destruct l; reflexivity. Qed.

Lemma stringToLogLevel_of_name (l : LogLevel) :
  stringToLogLevel (logLevelToString l) = l.
Proof. destruct l; reflexivity. Qed.

(** X1. A line built by [formatMessage] is read back by [parseLogMessage]:
    when the rendered time holds no closing bracket, the collector gets the
    level that was logged and the message text less its leading blanks and
    tabs (brackets inside the message do no harm). *)
Theorem format_parse_round_trip (time message : string) (level : LogLevel) :
  char_free "]" time = true ->
  parseLogMessage (formatMessage time message level) =
    Some (skip_blanks message, level).
Proof.
  intros Ht.
  change (formatMessage time message level)
    with (String "[" time ++
          String "]" (String " " (String "["
            (logLevelToString level ++ String "]" (String " " message))))).
  rewrite parse_of_shape;
    [| exact Ht | apply level_name_free; left; reflexivity].
  rewrite stringToLogLevel_of_name. reflexivity.
Qed.

Lemma format_parse_round_trip_witness :
  parseLogMessage
    (formatMessage "2024-01-01 00:00:00.000" "disk [sda] full" WARNING) =
    Some ("disk [sda] full", WARNING).
Proof.
  apply (format_parse_round_trip "2024-01-01 00:00:00.000" "disk [sda] full"
           WARNING).
  reflexivity.
Defined.

(** X2. On a line "[time] [name] message" whose time and name hold no
    closing bracket, the collector takes the level from the name by
    [stringToLogLevel], whatever the name is: a name that is no level name
    counts as INFO. *)
Theorem parse_level_field (time name message : string) :
  char_free "]" time = true ->
  char_free "]" name = true ->
  (forall L : LogLevel, ~ eq_nocase name (logLevelToString L)) ->
  parseLogMessage ("[" ++ time ++ "] [" ++ name ++ "] " ++ message) =
    Some (skip_blanks message, INFO).
Proof.
  intros Ht Hn Hunknown.
  change ("[" ++ time ++ "] [" ++ name ++ "] " ++ message)
    with (String "[" time ++
          String "]" (String " " (String "["
            (name ++ String "]" (String " " message))))).
  rewrite parse_of_shape by assumption.
  destruct (stringToLogLevel_cases name)
    as [[E _] | [[E _] | [[_ R] | [[E _] | [[E _] | [[E _] | [_ R]]]]]]];
    try (rewrite R; reflexivity); exfalso.
  - apply (Hunknown TRACE). unfold eq_nocase. rewrite E. reflexivity.
  - apply (Hunknown DEBUG). unfold eq_nocase. rewrite E. reflexivity.
  - apply (Hunknown WARNING). unfold eq_nocase. rewrite E. reflexivity.
  - apply (Hunknown ERROR). unfold eq_nocase. rewrite E. reflexivity.
  - apply (Hunknown FATAL). unfold eq_nocase. rewrite E. reflexivity.
Qed.

Lemma parse_level_field_witness :
  parseLogMessage ("[" ++ "12:00" ++ "] [" ++ "NOTICE" ++ "] " ++ "hello") =
    Some ("hello", INFO).
Proof.
  apply (parse_level_field "12:00" "NOTICE" "hello");
    [reflexivity | reflexivity |].
  intros []; unfold eq_nocase; simpl; discriminate.
Defined.

Lemma substr_from_suffix (s : string) (k : nat) :
  exists p, s = p ++ substr_from s k.
Proof.
  revert k. induction s as [| c s IH]; intros [| k]; simpl.
  - exists "". reflexivity.
  - exists "". reflexivity.
  - exists "". reflexivity.
  - destruct (IH k) as [p Hp]. exists (String c p).
    rewrite append_cons, <- Hp. reflexivity.
Qed.

Lemma find_first_not_of_head (chars s : string) (pos start : nat) :
  find_first_not_of chars s pos = Some start ->
  exists c rest, substr_from s start = String c rest /\ char_in c chars = false.
Proof.
  revert pos start. induction s as [| c s IH]; intros pos start;
    [discriminate |].
  cbn [find_first_not_of].
  destruct pos as [| pos].
  - destruct (char_in c chars) eqn:Hc.
    + destruct (find_first_not_of chars s 0) as [i |] eqn:Hi;
        [| discriminate].
      intros [= <-]. simpl. exact (IH 0%nat i Hi).
    + intros [= <-]. exists c, s. split; [reflexivity | exact Hc].
  - destruct (find_first_not_of chars s pos) as [i |] eqn:Hi;
      [| discriminate].
    intros [= <-]. simpl. exact (IH pos i Hi).
Qed.

(** X3. Whatever line [parseLogMessage] accepts, the message it hands over
    is an end piece of the line and does not begin with a blank or a tab. *)
Theorem parse_message_shape (rawMessage message : string) (level : LogLevel) :
  parseLogMessage rawMessage = Some (message, level) ->
  (exists before, rawMessage = before ++ message) /\
  match message with
  | EmptyString => True
  | String c _ => c <> " "%char /\ c <> tab
  end.
Proof.
  unfold parseLogMessage.
  destruct (string_find "[" rawMessage 0) as [b1 |]; [| discriminate].
  destruct (string_find "]" rawMessage b1) as [b2 |]; [| discriminate].
  destruct (string_find "[" rawMessage b2) as [b3 |]; [| discriminate].
  destruct (string_find "]" rawMessage b3) as [b4 |]; [| discriminate].
  destruct (find_first_not_of blanks rawMessage (b4 + 1)) as [start |] eqn:Hs.
  - intros [= <- _]. split; [apply substr_from_suffix |].
    destruct (find_first_not_of_head _ _ _ _ Hs) as (c & rest & -> & Hc).
    unfold blanks in Hc. simpl in Hc.
    apply orb_false_iff in Hc as [H1 H2].
    apply orb_false_iff in H2 as [H2 _].
    split; [apply Ascii.eqb_neq; exact H1 | apply Ascii.eqb_neq; exact H2].
  - intros [= <- _]. split; [| exact I].
    exists rawMessage. rewrite append_nil_r. reflexivity.
Qed.

Lemma parse_message_shape_witness :
  exists before, "[t] [INFO]   hi" = before ++ "hi".
Proof.
  apply (parse_message_shape "[t] [INFO]   hi" "hi" INFO). reflexivity.
Defined.

Lemma string_find_absent (ch : ascii) (s : string) (pos : nat) :
  char_free ch s = true -> string_find ch s pos = None.
Proof.
  revert pos. induction s as [| c s IH]; intros pos Hfree; [reflexivity |].
  simpl in Hfree. apply andb_true_iff in Hfree as [Hc Hs].
  apply negb_true_iff in Hc. simpl. rewrite Hc.
  destruct pos; rewrite (IH _ Hs); reflexivity.
Qed.

Lemma drop_trailing_cr_free (ch : ascii) (s : string) :
  char_free ch s = true -> char_free ch (drop_trailing_cr s) = true.
Proof.
  induction s as [| c s IH]; intros Hfree; [reflexivity |].
  simpl in Hfree. apply andb_true_iff in Hfree as [Hc Hs].
  destruct s as [| d s].
  - simpl. destruct (Ascii.eqb c (ascii_of_nat 13)); [reflexivity |].
    simpl. rewrite Hc. reflexivity.
  - change (drop_trailing_cr (String c (String d s)))
      with (String c (drop_trailing_cr (String d s))).
    simpl. simpl in IH. rewrite Hc, (IH Hs). reflexivity.
Qed.

(** X4. A received line without an opening bracket, or without a closing
    one, is not counted: the statistics stay as they were. *)
Theorem unbracketed_line_not_counted (hour : Z) (st : LogStatistics)
    (line : string) (now : Z) :
  char_free "[" line = true \/ char_free "]" line = true ->
  receive_line hour st line now = st.
Proof.
  intros Hfree. unfold receive_line.
  destruct line as [| c line]; [reflexivity |].
  assert (Hnone : parseLogMessage (drop_trailing_cr (String c line)) = None).
  { unfold parseLogMessage. destruct Hfree as [H | H].
    - rewrite (string_find_absent "[" _ 0 (drop_trailing_cr_free _ _ H)).
      reflexivity.
    - destruct (string_find "[" (drop_trailing_cr (String c line)) 0);
        [| reflexivity].
      rewrite (string_find_absent "]" _ _ (drop_trailing_cr_free _ _ H)).
      reflexivity. }
  rewrite Hnone. reflexivity.
Qed.

Lemma unbracketed_line_not_counted_witness :
  receive_line 3600 (LogStatistics_new 0) "plain text, no fields" 5 =
    LogStatistics_new 0.
Proof.
  apply (unbracketed_line_not_counted 3600 (LogStatistics_new 0)
           "plain text, no fields" 5).
  left. reflexivity.
Defined.

(** ** The statistics collector: counters, lengths, the one-hour window *)

Lemma fold_min_start (a b : N) (l : list N) :
  fold_right N.min (N.min a b) l = N.min b (fold_right N.min a l).
Proof. induction l as [| x l IH]; simpl; [lia | rewrite IH; lia]. Qed.

Lemma fold_max_start (a b : N) (l : list N) :
  fold_right N.max (N.max a b) l = N.max b (fold_right N.max a l).
Proof. induction l as [| x l IH]; simpl; [lia | rewrite IH; lia]. Qed.

Lemma addMessages_lengths (hour : Z) (events : list (string * LogLevel * Z)) :
  forall st,
  minLength (addMessages hour st events) =
    fold_right N.min (minLength st) (List.map event_length events) /\
  maxLength (addMessages hour st events) =
    fold_right N.max (maxLength st) (List.map event_length events).
Proof.
  induction events as [| [[m l] t] events IH]; intros st; [split; reflexivity |].
  cbn [addMessages List.map fold_right].
  destruct (IH (addMessage hour st m l t)) as [Hmin Hmax].
  rewrite Hmin, Hmax. cbn [minLength maxLength addMessage].
  rewrite fold_min_start, fold_max_start. split; reflexivity.
Qed.

Lemma fold_min_le (a : N) (l : list N) (x : N) :
  In x l -> (fold_right N.min a l <= x)%N.
Proof.
  induction l as [| y l IH]; simpl; [tauto |].
  intros [-> | Hx]; [lia | specialize (IH Hx); lia].
Qed.

Lemma fold_max_ge (a : N) (l : list N) (x : N) :
  In x l -> (x <= fold_right N.max a l)%N.
Proof.
  induction l as [| y l IH]; simpl; [tauto |].
  intros [-> | Hx]; [lia | specialize (IH Hx); lia].
Qed.

(** X5. After any run of [addMessage] calls on fresh statistics, [minLength]
    is the least of SIZE_MAX and the lengths of the messages, [maxLength] is
    the greatest of 0 and these lengths, and the length of every message
    counted lies between the two. *)
Theorem stats_length_range (hour t0 : Z)
    (events : list (string * LogLevel * Z)) :
  let st := addMessages hour (LogStatistics_new t0) events in
  minLength st = fold_right N.min SIZE_MAX (List.map event_length events) /\
  maxLength st = fold_right N.max 0%N (List.map event_length events) /\
  (forall e, In e events ->
     (minLength st <= event_length e <= maxLength st)%N).
Proof.
  intros st.
  destruct (addMessages_lengths hour events (LogStatistics_new t0))
    as [Hmin Hmax].
  fold st in Hmin, Hmax. cbn [minLength maxLength LogStatistics_new] in *.
  split; [exact Hmin |]. split; [exact Hmax |].
  intros e He. rewrite Hmin, Hmax.
  assert (Hin : In (event_length e) (List.map event_length events))
    by (apply in_map; exact He).
  split; [apply fold_min_le | apply fold_max_ge]; exact Hin.
Qed.

Lemma stats_length_range_witness :
  let st := addMessages 3600 (LogStatistics_new 0)
              [("hi", INFO, 1%Z); ("bye", WARNING, 2%Z)] in
  (minLength st <= 3 <= maxLength st)%N.
Proof.
  intros st.
  destruct (stats_length_range 3600 0
              [("hi", INFO, 1%Z); ("bye", WARNING, 2%Z)]) as (_ & _ & H).
  apply (H ("bye", WARNING, 2%Z)). simpl. right. left. reflexivity.
Defined.

Lemma size_t_add_mod (a b c : N) :
  ((size_t_add a b + c) mod 2 ^ 64 = (a + b + c) mod 2 ^ 64)%N.
Proof. unfold size_t_add. apply N.Div0.add_mod_idemp_l. Qed.

Lemma level_count_insert (m : gmap LogLevel N) (l l' : LogLevel) (v : N) :
  default 0%N (<[l := v]> m !! l') =
    if decide (l = l') then v else default 0%N (m !! l').
Proof.
  destruct (decide (l = l')) as [-> | Hne].
  - rewrite lookup_insert_eq. reflexivity.
  - rewrite lookup_insert_ne by exact Hne. reflexivity.
Qed.

Lemma addMessages_counters (hour : Z) (events : list (string * LogLevel * Z)) :
  forall st,
  (totalMessages (addMessages hour st events) mod 2 ^ 64 =
     (totalMessages st + N.of_nat (List.length events)) mod 2 ^ 64)%N /\
  (totalLength (addMessages hour st events) mod 2 ^ 64 =
     (totalLength st
      + N.of_nat (list_sum (List.map (fun e => String.length e.1.1) events)))
     mod 2 ^ 64)%N /\
  (forall l,
     default 0%N (messagesByLevel (addMessages hour st events) !! l)
       mod 2 ^ 64 =
     (default 0%N (messagesByLevel st !! l)
      + N.of_nat (List.length (events_at l events))) mod 2 ^ 64)%N.
Proof.
  induction events as [| [[m lv] t] events IH]; intros st.
  - cbn [addMessages List.length List.map list_sum events_at List.filter].
    change (N.of_nat 0) with 0%N. rewrite !N.add_0_r.
    split; [reflexivity |]. split; [reflexivity |].
    intros l. rewrite N.add_0_r. reflexivity.
  - cbn [addMessages]. destruct (IH (addMessage hour st m lv t))
      as (Htot & Hlen & Hlev).
    rewrite Htot, Hlen. cbn [totalMessages totalLength addMessage].
    split; [| split].
    + rewrite size_t_add_mod. f_equal. cbn [List.length]. lia.
    + rewrite size_t_add_mod. f_equal. cbn [List.map fst].
      unfold list_sum. cbn [fold_right]. lia.
    + intros l. rewrite Hlev. cbn [messagesByLevel addMessage].
      rewrite level_count_insert. unfold events_at. cbn [List.filter].
      simpl snd. simpl fst. destruct (decide (lv = l)) as [-> | Hne].
      * rewrite bool_decide_eq_true_2 by reflexivity.
        rewrite size_t_add_mod. f_equal. cbn [List.length]. lia.
      * rewrite bool_decide_eq_false_2 by exact Hne. reflexivity.
Qed.

Lemma addMessages_counters_small (hour : Z)
    (events : list (string * LogLevel * Z)) : forall st,
  (totalMessages st < 2 ^ 64)%N ->
  (totalLength st < 2 ^ 64)%N ->
  (forall l, default 0%N (messagesByLevel st !! l) < 2 ^ 64)%N ->
  (totalMessages (addMessages hour st events) < 2 ^ 64)%N /\
  (totalLength (addMessages hour st events) < 2 ^ 64)%N /\
  (forall l,
     default 0%N (messagesByLevel (addMessages hour st events) !! l)
     < 2 ^ 64)%N.
Proof.
  induction events as [| [[m lv] t] events IH]; intros st H1 H2 H3;
    [tauto |].
  cbn [addMessages]. apply IH; cbn [totalMessages totalLength messagesByLevel addMessage].
  - unfold size_t_add. apply N.mod_lt. discriminate.
  - unfold size_t_add. apply N.mod_lt. discriminate.
  - intros l. rewrite level_count_insert. destruct (decide (lv = l)).
    + unfold size_t_add. apply N.mod_lt. discriminate.
    + apply H3.
Qed.

(** A level has no entry in the map exactly when it had none before and no
    message came at that level. *)
Lemma addMessages_level_entry (hour : Z)
    (events : list (string * LogLevel * Z)) (l : LogLevel) :
  forall st,
  messagesByLevel (addMessages hour st events) !! l = None <->
  messagesByLevel st !! l = None /\ events_at l events = [].
Proof.
  induction events as [| [[m lv] t] events IH]; intros st.
  - cbn [addMessages events_at List.filter]. tauto.
  - cbn [addMessages]. rewrite IH.
    cbn [messagesByLevel addMessage]. unfold events_at.
    cbn [List.filter fst snd].
    destruct (decide (lv = l)) as [-> | Hne].
    + rewrite lookup_insert_eq, bool_decide_eq_true_2 by reflexivity.
      split; [intros [H _]; discriminate | intros [_ H]; discriminate].
    + rewrite lookup_insert_ne by exact Hne.
      rewrite bool_decide_eq_false_2 by exact Hne. tauto.
Qed.

(** X6. After any run of [addMessage] calls on fresh statistics,
    [totalMessages] is the number of messages; the map of counts has no
    entry for a level at which no message came, and for every other level
    an entry holding the number of messages at that level; and
    [totalLength] is the sum of the message lengths; each number modulo
    2^64, the range of [size_t]. *)
Theorem stats_counters (hour t0 : Z)
    (events : list (string * LogLevel * Z)) (l : LogLevel) :
  let st := addMessages hour (LogStatistics_new t0) events in
  (totalMessages st = N.of_nat (List.length events) mod 2 ^ 64)%N /\
  messagesByLevel st !! l =
    match events_at l events with
    | [] => None
    | _ :: _ =>
        Some (N.of_nat (List.length (events_at l events)) mod 2 ^ 64)%N
    end /\
  (default 0%N (messagesByLevel st !! l) =
     N.of_nat (List.length (events_at l events)) mod 2 ^ 64)%N /\
  (totalLength st =
     N.of_nat (list_sum (List.map (fun e => String.length e.1.1) events))
     mod 2 ^ 64)%N.
Proof.
  intros st.
  destruct (addMessages_counters hour events (LogStatistics_new t0))
    as (Htot & Hlen & Hlev).
  destruct (addMessages_counters_small hour events (LogStatistics_new t0))
    as (Btot & Blen & Blev);
    [reflexivity | reflexivity
    | intros l'; cbn [messagesByLevel LogStatistics_new];
      rewrite lookup_empty; reflexivity |].
  pose proof (addMessages_level_entry hour events l (LogStatistics_new t0))
    as Hentry.
  fold st in Htot, Hlen, Hlev, Btot, Blen, Blev, Hentry.
  specialize (Hlev l). specialize (Blev l).
  cbn [totalMessages totalLength messagesByLevel LogStatistics_new] in *.
  rewrite lookup_empty in Hlev, Hentry. cbn [default] in Hlev.
  rewrite N.mod_small in Htot by exact Btot.
  rewrite N.mod_small in Hlen by exact Blen.
  rewrite N.mod_small in Hlev by exact Blev.
  rewrite !N.add_0_l in *.
  split; [exact Htot |]. split; [| split; [exact Hlev | exact Hlen]].
  destruct (events_at l events) as [| e rest] eqn:Hat.
  - apply Hentry. split; reflexivity.
  - destruct (messagesByLevel st !! l) as [v |] eqn:Hv.
    + f_equal. exact Hlev.
    + destruct (proj1 Hentry eq_refl) as [_ Hnil]. discriminate.
Qed.

Lemma addMessages_app (hour : Z) (ev1 ev2 : list (string * LogLevel * Z)) :
  forall st,
  addMessages hour st (ev1 ++ ev2) =
    addMessages hour (addMessages hour st ev1) ev2.
Proof.
  induction ev1 as [| [[m l] t] ev1 IH]; intros st; [reflexivity |].
  cbn [app addMessages]. apply IH.
Qed.

Lemma filter_filter_weaker {A : Type} (p q : A -> bool) (l : list A) :
  (forall x, p x = true -> q x = true) ->
  List.filter p (List.filter q l) = List.filter p l.
Proof.
  intros Hpq. induction l as [| x l IH]; [reflexivity |].
  cbn [List.filter]. destruct (q x) eqn:Hq.
  - cbn [List.filter]. rewrite IH. reflexivity.
  - rewrite IH. destruct (p x) eqn:Hp; [| reflexivity].
    rewrite (Hpq x Hp) in Hq. discriminate.
Qed.

Lemma within_hour_later (hour now later t : Z) :
  (now <= later)%Z ->
  within_hour hour later t = true -> within_hour hour now t = true.
Proof.
  unfold within_hour. intros Hle H.
  apply negb_true_iff in H. apply Z.ltb_ge in H.
  apply negb_true_iff. apply Z.ltb_ge. lia.
Qed.

(** Seen from a clock reading [c] that is not earlier than any reading so
    far, the stamps kept are those of the readings within the hour before
    [c]: what pruning has dropped would not count at [c] either. *)
Lemma timestamps_window (hour t0 : Z)
    (events : list (string * LogLevel * Z)) (c : Z) :
  Forall (fun e => (event_time e <= c)%Z) events ->
  List.filter (within_hour hour c)
    (timestamps (addMessages hour (LogStatistics_new t0) events)) =
  List.filter (within_hour hour c) (List.map event_time events).
Proof.
  revert c. induction events as [| [[m l] t] events IH] using rev_ind;
    intros c Hall; [reflexivity |].
  apply Forall_app in Hall as [Hall Ht].
  apply Forall_inv in Ht. unfold event_time in Ht. simpl in Ht.
  rewrite addMessages_app. cbn [addMessages timestamps addMessage].
  change (fun t1 : Z => negb (t1 <? t - hour)%Z) with (within_hour hour t).
  rewrite filter_filter_weaker by (intros x; apply within_hour_later; exact Ht).
  rewrite List.filter_app, List.map_app, List.filter_app.
  rewrite (IH c Hall). reflexivity.
Qed.

(** X7. When a message is counted at a clock reading [now] that is not
    earlier than the reading of any message before it, [messagesLastHour] is
    the number of messages so far, this one included, whose reading is not
    more than an hour before [now]; the stamps kept are exactly theirs. *)
Theorem last_hour_window (hour t0 : Z)
    (events : list (string * LogLevel * Z)) (message : string)
    (level : LogLevel) (now : Z) :
  Forall (fun e => (event_time e <= now)%Z) events ->
  let st :=
    addMessages hour (LogStatistics_new t0)
      (events ++ [(message, level, now)]) in
  timestamps st =
    List.filter (within_hour hour now)
      (List.map event_time events ++ [now]) /\
  messagesLastHour st =
    N.of_nat (List.length
      (List.filter (within_hour hour now)
         (List.map event_time events ++ [now]))).
Proof.
  intros Hall st.
  assert (Hst : timestamps st =
    List.filter (within_hour hour now)
      (List.map event_time events ++ [now])).
  { unfold st. rewrite addMessages_app. cbn [addMessages timestamps addMessage].
    change (fun t1 : Z => negb (t1 <? now - hour)%Z)
      with (within_hour hour now).
    rewrite !List.filter_app. rewrite (timestamps_window hour t0 events now Hall).
    reflexivity. }
  split; [exact Hst |].
  rewrite <- Hst. unfold st. rewrite addMessages_app. reflexivity.
Qed.

Lemma last_hour_window_witness :
  messagesLastHour
    (addMessages 3600 (LogStatistics_new 0)
       ([("a", INFO, 100%Z); ("b", INFO, 5000%Z)] ++ [("c", DEBUG, 6000%Z)]))
  = 2%N.
Proof.
  destruct (last_hour_window 3600 0 [("a", INFO, 100%Z); ("b", INFO, 5000%Z)]
              "c" DEBUG 6000) as [_ H].
  - repeat constructor; unfold event_time; simpl; lia.
  - exact H.
Defined.

(** X8. With one second of [second > 0] ticks, a message interval above 0
    and a timeout above 0, [shouldPrintStats] answers true exactly when the
    number of messages is a positive multiple of the interval, or when the
    statistics have changed since the last report and at least
    [timeoutSeconds] full seconds have gone by since it. *)
Theorem shouldPrintStats_when (second : Z) (st : LogStatistics)
    (messagesInterval : N) (timeoutSeconds now : Z) :
  (0 < second)%Z -> (0 < messagesInterval)%N -> (0 < timeoutSeconds)%Z ->
  shouldPrintStats second st messagesInterval timeoutSeconds now = true <->
  ((totalMessages st mod messagesInterval = 0)%N /\ (0 < totalMessages st)%N)
  \/ (statsChanged st = true /\
      (timeoutSeconds * second <= now - lastStatsOutput st)%Z).
Proof.
  intros Hs Hn Ht. unfold shouldPrintStats.
  set (x := (now - lastStatsOutput st)%Z).
  assert (Hq : (timeoutSeconds <= x ÷ second <-> timeoutSeconds * second <= x)%Z).
  { destruct (Z.le_gt_cases 0 x) as [Hx | Hx].
    - rewrite Z.quot_div_nonneg by lia. split; intros H.
      + pose proof (Z.mul_div_le x second Hs). nia.
      + apply Z.div_le_lower_bound; lia.
    - assert (x ÷ second <= 0)%Z.
      { rewrite <- (Z.opp_involutive x), Z.quot_opp_l by lia.
        pose proof (Z.quot_pos (- x) second ltac:(lia) Hs). lia. }
      split; intros H'; nia. }
  destruct (N.eqb_spec (totalMessages st mod messagesInterval) 0) as [E | E];
    destruct (N.ltb_spec 0 (totalMessages st)) as [P | P]; cbn [andb].
  - split; [intros _; left; split; assumption | reflexivity].
  - rewrite andb_true_iff, Z.leb_le, Hq. split.
    + intros H. right. exact H.
    + intros [[_ H] | H]; [lia | exact H].
  - rewrite andb_true_iff, Z.leb_le, Hq. split.
    + intros H. right. exact H.
    + intros [[H _] | H]; [contradiction | exact H].
  - rewrite andb_true_iff, Z.leb_le, Hq. split.
    + intros H. right. exact H.
    + intros [[H _] | H]; [contradiction | exact H].
Qed.

Lemma shouldPrintStats_when_witness :
  shouldPrintStats 1000
    (addMessage 3600000 (LogStatistics_new 0) "hi" INFO 10) 10 30 30000
  = true.
Proof.
  apply (shouldPrintStats_when 1000
           (addMessage 3600000 (LogStatistics_new 0) "hi" INFO 10) 10 30 30000);
    [lia | lia | lia |].
  right. split; [reflexivity | simpl; lia].
Defined.

(** X9. Right after [printStatistics], and until the next message, the
    answer of [shouldPrintStats] depends on the message count alone: it is
    true exactly when the count is a positive multiple of the interval,
    whatever the clock reads.  On fresh statistics the answer is false.
    The message interval is above 0, as [main] makes sure. *)
Theorem report_after_report (second : Z) (st : LogStatistics)
    (messagesInterval : N) (timeoutSeconds t t0 now : Z) :
  (0 < messagesInterval)%N ->
  (shouldPrintStats second (printStatistics st t) messagesInterval
     timeoutSeconds now = true
   <-> (totalMessages st mod messagesInterval = 0)%N /\
       (0 < totalMessages st)%N) /\
  shouldPrintStats second (LogStatistics_new t0) messagesInterval
    timeoutSeconds now = false.
Proof.
  intros Hinterval. split.
  - unfold shouldPrintStats, printStatistics.
    cbn [totalMessages statsChanged lastStatsOutput].
    destruct (N.eqb_spec (totalMessages st mod messagesInterval) 0) as [E | E];
      destruct (N.ltb_spec 0 (totalMessages st)) as [P | P]; cbn [andb].
    + split; [intros _; split; assumption | reflexivity].
    + split; [discriminate | intros [_ H]; lia].
    + split; [discriminate | intros [H _]; contradiction].
    + split; [discriminate | intros [H _]; contradiction].
  - unfold shouldPrintStats, LogStatistics_new.
    cbn [totalMessages statsChanged lastStatsOutput].
    change (0 <? 0)%N with false. rewrite andb_false_r. reflexivity.
Qed.

Lemma report_after_report_witness :
  shouldPrintStats 1000
    (printStatistics
       (addMessages 3600000 (LogStatistics_new 0)
          [("a", INFO, 1%Z); ("b", INFO, 2%Z)]) 3) 2 30 4
  = true.
Proof.
  destruct (report_after_report 1000
              (addMessages 3600000 (LogStatistics_new 0)
                 [("a", INFO, 1%Z); ("b", INFO, 2%Z)]) 2 30 3 0 4
              ltac:(lia)) as [H _].
  apply H. split; [reflexivity | reflexivity].
Defined.

(** ** The receive loop: cutting the byte stream into lines *)

Lemma cut_lines_fuel (f1 : nat) : forall (f2 : nat) (data : string),
  (String.length data <= f1)%nat -> (String.length data <= f2)%nat ->
  cut_lines f1 data = cut_lines f2 data.
Proof.
  induction f1 as [| f1 IH]; intros f2 data H1 H2.
  - destruct data; [| simpl in H1; lia]. destruct f2; reflexivity.
  - destruct f2 as [| f2].
    + destruct data; [reflexivity | simpl in H2; lia].
    + cbn [cut_lines].
      destruct (string_find line_feed data 0) as [pos |] eqn:Hf;
        [| reflexivity].
      destruct (string_find_cut _ _ _ Hf) as (Heq & _ & Hlt).
      assert (Hlen : (String.length (substr_from data (pos + 1))
                      < String.length data)%nat).
      { rewrite Heq at 2. rewrite length_append. simpl. lia. }
      rewrite (IH f2 (substr_from data (pos + 1))) by lia. reflexivity.
Qed.

Lemma cut_lines_none (fuel : nat) (data : string) :
  char_free line_feed data = true -> cut_lines fuel data = ([], data).
Proof.
  intros Hfree. destruct fuel; [reflexivity |]. cbn [cut_lines].
  apply string_find_none in Hfree. rewrite Hfree. reflexivity.
Qed.

Lemma cut_lines_step (fuel : nat) (line rest : string) :
  char_free line_feed line = true ->
  cut_lines (S fuel) (line ++ String line_feed rest) =
    (line :: (cut_lines fuel rest).1, (cut_lines fuel rest).2).
Proof.
  intros Hfree. cbn [cut_lines].
  rewrite (string_find_free line_feed line rest Hfree).
  rewrite substring_prefix.
  rewrite (substr_from_shift line (String line_feed rest) 1).
  cbn [substr_from]. rewrite substr_from_0.
  destruct (cut_lines fuel rest). reflexivity.
Qed.

(** X10. The loop cuts the data without loss: given room for as many rounds
    as the data has bytes (it never needs more), no line cut and nothing
    left over holds a line feed, and the lines, each with its line feed put
    back, followed by what is left over, are the data. *)
Theorem cut_lines_exact (fuel : nat) : forall data : string,
  (String.length data <= fuel)%nat ->
  let '(lines, rest) := cut_lines fuel data in
  Forall (fun line => char_free line_feed line = true) lines /\
  char_free line_feed rest = true /\
  data = unlines lines ++ rest.
Proof.
  induction fuel as [| fuel IH]; intros data Hlen.
  - destruct data; [| simpl in Hlen; lia]. simpl. repeat split. constructor.
  - cbn [cut_lines].
    destruct (string_find line_feed data 0) as [pos |] eqn:Hf.
    + destruct (string_find_cut _ _ _ Hf) as (Heq & Hfree & Hlt).
      assert (Hrest : (String.length (substr_from data (pos + 1)) <= fuel)%nat).
      { assert (String.length data =
                (String.length (String.substring 0 pos data)
                 + S (String.length (substr_from data (pos + 1))))%nat) as E
          by (rewrite Heq at 1; rewrite length_append; reflexivity).
        lia. }
      specialize (IH _ Hrest).
      destruct (cut_lines fuel (substr_from data (pos + 1))) as [lines rest].
      destruct IH as (Hlines & Hlast & Hdata).
      split; [constructor; assumption |]. split; [exact Hlast |].
      cbn [unlines]. rewrite append_assoc, append_cons, <- Hdata.
      exact Heq.
    + apply string_find_none in Hf. repeat split; [constructor | exact Hf].
Qed.

Lemma cut_lines_exact_witness :
  let '(lines, rest) := cut_lines 7 (unlines ["ab"; "c"] ++ "de") in
  unlines ["ab"; "c"] ++ "de" = unlines lines ++ rest.
Proof.
  pose proof (cut_lines_exact 7 (unlines ["ab"; "c"] ++ "de")
                ltac:(vm_compute; lia)) as H.
  vm_compute in H. vm_compute. tauto.
Defined.

Lemma cut_lines_app (fuel : nat) : forall (a b : string) (f2 f3 : nat),
  (String.length a <= fuel)%nat ->
  (String.length (a ++ b) <= f2)%nat ->
  (String.length ((cut_lines fuel a).2 ++ b) <= f3)%nat ->
  cut_lines f2 (a ++ b) =
    (((cut_lines fuel a).1 ++ (cut_lines f3 ((cut_lines fuel a).2 ++ b)).1)%list,
     (cut_lines f3 ((cut_lines fuel a).2 ++ b)).2).
Proof.
  induction fuel as [| fuel IH]; intros a b f2 f3 Ha H2 H3.
  - destruct a; [| simpl in Ha; lia]. cbn [cut_lines fst snd app] in *.
    rewrite (cut_lines_fuel f2 f3) by assumption.
    destruct (cut_lines f3 ("" ++ b)). reflexivity.
  - cbn [cut_lines] in *.
    destruct (string_find line_feed a 0) as [pos |] eqn:Hf.
    + destruct (string_find_cut _ _ _ Hf) as (Heq & Hfree & Hlt).
      set (line := String.substring 0 pos a) in *.
      set (a' := substr_from a (pos + 1)) in *.
      assert (Hlen : String.length a = (String.length line + S (String.length a'))%nat)
        by (rewrite Heq at 1; rewrite length_append; reflexivity).
      assert (Ha' : (String.length a' <= fuel)%nat) by lia.
      destruct (cut_lines fuel a') as [lines rest] eqn:Hcut.
      cbn [fst snd] in *.
      assert (Hab : a ++ b = line ++ String line_feed (a' ++ b)).
      { rewrite Heq at 1. rewrite append_assoc, append_cons. reflexivity. }
      rewrite Hab in *. rewrite length_append in H2. simpl in H2.
      destruct f2 as [| f2]; [lia |].
      rewrite (cut_lines_step f2 line (a' ++ b) Hfree).
      specialize (IH a' b f2 f3 Ha' ltac:(lia)).
      rewrite Hcut in IH. cbn [fst snd] in IH. rewrite (IH H3).
      reflexivity.
    + cbn [fst snd app] in *.
      rewrite (cut_lines_fuel f2 f3) by assumption.
      destruct (cut_lines f3 (a ++ b)). reflexivity.
Qed.

Lemma c_string_free (buffer : string) :
  char_free NUL buffer = true -> c_string buffer = buffer.
Proof.
  induction buffer as [| c s IH]; intros Hfree; [reflexivity |].
  simpl in Hfree. apply andb_true_iff in Hfree as [Hc Hs].
  apply negb_true_iff in Hc. cbn [c_string]. rewrite Hc, (IH Hs).
  reflexivity.
Qed.

Lemma char_free_app (ch : ascii) (s t : string) :
  char_free ch (s ++ t) = char_free ch s && char_free ch t.
Proof.
  induction s as [| c s IH]; [reflexivity |].
  rewrite append_cons. cbn [char_free]. rewrite IH, andb_assoc. reflexivity.
Qed.

(** X11. How [recv] happens to slice the stream does not matter to the lines
    the loop finds: bytes free of zero bytes that arrive in two blocks give,
    block after block, the lines and the left-over that they give arriving
    as one block. *)
Theorem receive_data_blocks (partialMessage block1 block2 : string) :
  char_free NUL block1 = true -> char_free NUL block2 = true ->
  receive_data partialMessage (block1 ++ block2) =
    let '(lines1, partial1) := receive_data partialMessage block1 in
    let '(lines2, partial2) := receive_data partial1 block2 in
    ((lines1 ++ lines2)%list, partial2).
Proof.
  intros H1 H2. unfold receive_data.
  rewrite (c_string_free (block1 ++ block2))
    by (rewrite char_free_app, H1, H2; reflexivity).
  rewrite (c_string_free block1 H1), (c_string_free block2 H2).
  rewrite <- append_assoc.
  rewrite (cut_lines_app (String.length (partialMessage ++ block1))
             (partialMessage ++ block1) block2
             (String.length ((partialMessage ++ block1) ++ block2))
             (String.length
                ((cut_lines (String.length (partialMessage ++ block1))
                    (partialMessage ++ block1)).2 ++ block2)))
    by lia.
  destruct (cut_lines (String.length (partialMessage ++ block1))
              (partialMessage ++ block1)) as [lines1 partial1].
  cbn [fst snd].
  destruct (cut_lines (String.length (partial1 ++ block2)) (partial1 ++ block2)).
  reflexivity.
Qed.

Lemma receive_data_blocks_witness :
  receive_data "" ("[t] [INFO] a" ++ (newline ++ "[t] [IN")) =
    (["[t] [INFO] a"], "[t] [IN").
Proof.
  rewrite (receive_data_blocks "" "[t] [INFO] a" (newline ++ "[t] [IN"));
    reflexivity.
Defined.

Lemma c_string_stops (a b : string) :
  c_string (a ++ String NUL b) = c_string a.
Proof.
  induction a as [| c a IH]; [reflexivity |].
  rewrite append_cons. cbn [c_string]. rewrite IH. reflexivity.
Qed.

(** X12. What follows a zero byte in a received block is lost: the block is
    turned into a string as a C string is, so the loop sees the bytes before
    the first zero byte only. *)
Theorem receive_data_zero_byte (partialMessage before after : string) :
  receive_data partialMessage (before ++ String NUL after) =
    receive_data partialMessage before.
Proof.
  unfold receive_data. rewrite c_string_stops. reflexivity.
Qed.

(** ** SocketOutput: construction and what a lost connection means *)

(** X13. A [SocketOutput] is valid after construction exactly when
    [socket] returned a descriptor, [inet_pton] accepted the address and
    [connect] succeeded; it then holds that descriptor.  In every other case
    it is not connected and holds a negative descriptor. *)
Theorem SocketOutput_new_valid (os : ConnectAnswers) (host : string)
    (port : Z) :
  let s := SocketOutput_new os host port in
  (SocketOutput_isValid s = true <->
     (0 <= socket_ret os)%Z /\ (0 < inet_pton_ret os)%Z /\
     (0 <= connect_ret os)%Z) /\
  (SocketOutput_isValid s = true -> socket_fd_ s = socket_ret os) /\
  (SocketOutput_isValid s = false ->
     connected_ s = false /\ (socket_fd_ s < 0)%Z).
Proof.
  unfold SocketOutput_new, SocketOutput_connect, SocketOutput_isValid.
  cbn [set_socket_fd socket_fd_ host_ port_ connected_].
  destruct (Z.ltb_spec (socket_ret os) 0) as [H1 | H1];
    [cbn; repeat split; try lia; try discriminate; intros; lia |].
  destruct (Z.leb_spec (inet_pton_ret os) 0) as [H2 | H2];
    [cbn; repeat split; try lia; try discriminate; intros; lia |].
  destruct (Z.ltb_spec (connect_ret os) 0) as [H3 | H3];
    [cbn; repeat split; try lia; try discriminate; intros; lia |].
  cbn. destruct (Z.leb_spec 0 (socket_ret os)) as [H4 | H4]; [| lia].
  repeat split; try lia; try discriminate.
Qed.

Lemma SocketOutput_new_valid_witness :
  socket_fd_ (SocketOutput_new (mkConnectAnswers 3 1 0) "127.0.0.1" 9000)
    = 3%Z /\
  connected_ (SocketOutput_new (mkConnectAnswers 3 1 (-1)) "127.0.0.1" 9000)
    = false.
Proof.
  split.
  - apply (SocketOutput_new_valid (mkConnectAnswers 3 1 0) "127.0.0.1" 9000).
    reflexivity.
  - apply (SocketOutput_new_valid (mkConnectAnswers 3 1 (-1)) "127.0.0.1"
             9000).
    reflexivity.
Defined.

Lemma SocketOutput_writeLog_invalid (s : SocketOutput) (m : string)
    (net : Net) :
  SocketOutput_isValid s = false ->
  SocketOutput_writeLog s m net = (false, s, net).
Proof.
  unfold SocketOutput_isValid, SocketOutput_writeLog. intros H.
  destruct (connected_ s); cbn [negb orb andb] in *; [| reflexivity].
  destruct (Z.leb_spec 0 (socket_fd_ s)); [discriminate |].
  destruct (Z.ltb_spec (socket_fd_ s) 0); [reflexivity | lia].
Qed.

Lemma SocketOutput_writeLogs_invalid (s : SocketOutput)
    (messages : list string) (net : Net) :
  SocketOutput_isValid s = false ->
  SocketOutput_writeLogs s messages net =
    (repeat false (List.length messages), s, net).
Proof.
  intros H. induction messages as [| m messages IH]; [reflexivity |].
  cbn [SocketOutput_writeLogs]. rewrite SocketOutput_writeLog_invalid by exact H.
  rewrite IH. reflexivity.
Qed.

(** X14. A socket that is not valid stays so: whatever is written to it, and
    however often, [writeLog] returns false, [send] is not called, and the
    object does not change.  There is no reconnection. *)
Theorem invalid_socket_stays_invalid (s : SocketOutput)
    (messages : list string) (net : Net) :
  SocketOutput_isValid s = false ->
  SocketOutput_writeLogs s messages net =
    (repeat false (List.length messages), s, net).
Proof.
  intros Hinvalid. induction messages as [| m messages IH]; [reflexivity |].
  cbn [SocketOutput_writeLogs].
  rewrite (SocketOutput_writeLog_invalid s m net Hinvalid), IH.
  reflexivity.
Qed.

Lemma invalid_socket_stays_invalid_witness :
  SocketOutput_writeLogs
    (SocketOutput_new (mkConnectAnswers 3 0 0) "no such host" 9000)
    ["a"; "b"] (mkNet [2%Z; 2%Z] []) =
  ([false; false],
   SocketOutput_new (mkConnectAnswers 3 0 0) "no such host" 9000,
   mkNet [2%Z; 2%Z] []).
Proof.
  apply (invalid_socket_stays_invalid
           (SocketOutput_new (mkConnectAnswers 3 0 0) "no such host" 9000)
           ["a"; "b"] (mkNet [2%Z; 2%Z] [])).
  reflexivity.
Defined.

(** X15. One failed [send] ends the connection for good: when [send] returns
    a negative value for the first of a run of messages, every [writeLog] of
    the run returns false, and that one [send] is the only one made. *)
Theorem send_error_is_final (s : SocketOutput) (m : string)
    (messages : list string) (r : Z) (answers : list Z)
    (calls : list (Z * string)) :
  SocketOutput_isValid s = true -> (r < 0)%Z ->
  SocketOutput_writeLogs s (m :: messages) (mkNet (r :: answers) calls) =
    (repeat false (S (List.length messages)),
     set_connected s false,
     mkNet answers (calls ++ [(socket_fd_ s, m ++ newline)])).
Proof.
  intros Hv Hr. cbn [SocketOutput_writeLogs].
  unfold SocketOutput_isValid in Hv. apply andb_true_iff in Hv as [Hc Hfd].
  apply Z.leb_le in Hfd.
  unfold SocketOutput_writeLog at 1. rewrite Hc. cbn [negb orb].
  destruct (Z.ltb_spec (socket_fd_ s) 0); [lia |].
  unfold sys_send. cbn [send_returns send_calls].
  destruct (Z.ltb_spec r 0); [| lia].
  rewrite SocketOutput_writeLogs_invalid by reflexivity.
  reflexivity.
Qed.

Lemma send_error_is_final_witness :
  (SocketOutput_writeLogs (mkSocketOutput 3 "127.0.0.1" 9000 true)
     ["a"; "b"; "c"] (mkNet [(-1)%Z; 2%Z; 2%Z] [])).1.1 =
  [false; false; false].
Proof.
  rewrite (send_error_is_final (mkSocketOutput 3 "127.0.0.1" 9000 true) "a"
             ["b"; "c"] (-1) [2%Z; 2%Z] []); [reflexivity | reflexivity | lia].
Defined.

(** ** FileOutput *)

Lemma FileOutput_writeLog_invalid (f : FileOutput) (m : string) (disk : Disk) :
  FileOutput_isValid f = false ->
  FileOutput_writeLog f m disk = (false, f, disk).
Proof.
  unfold FileOutput_isValid, FileOutput_writeLog. intros H.
  destruct (file_is_open f); cbn [negb andb] in *; [| reflexivity].
  rewrite H. reflexivity.
Qed.

Lemma FileOutput_writeLogs_invalid (f : FileOutput) (messages : list string)
    (disk : Disk) :
  FileOutput_isValid f = false ->
  FileOutput_writeLogs f messages disk =
    (repeat false (List.length messages), f, disk).
Proof.
  intros H. induction messages as [| m messages IH]; [reflexivity |].
  cbn [FileOutput_writeLogs]. rewrite FileOutput_writeLog_invalid by exact H.
  rewrite IH. reflexivity.
Qed.

(** X16. A file that could not be opened, or whose stream has failed, takes
    no message: every [writeLog] returns false and neither the object nor
    the file changes. *)
Theorem invalid_file_takes_nothing (f : FileOutput) (messages : list string)
    (disk : Disk) :
  FileOutput_isValid f = false ->
  FileOutput_writeLogs f messages disk =
    (repeat false (List.length messages), f, disk).
Proof.
  intros Hinvalid. induction messages as [| m messages IH]; [reflexivity |].
  cbn [FileOutput_writeLogs].
  rewrite (FileOutput_writeLog_invalid f m disk Hinvalid), IH.
  reflexivity.
Qed.

Lemma invalid_file_takes_nothing_witness :
  FileOutput_writeLogs (FileOutput_new false "") ["a"; "b"] (mkDisk [] "") =
    ([false; false], FileOutput_new false "", mkDisk [] "").
Proof.
  apply (invalid_file_takes_nothing (FileOutput_new false "") ["a"; "b"]
           (mkDisk [] "")).
  reflexivity.
Defined.

(** X17. One failed write ends logging through the object: [writeLog]
    returns false for the message whose write failed and for every message
    after it, [isValid()] is false from then on, and the later calls ask
    nothing more of the file system.  (What the stream still holds of the
    failed message, and what closing the file does with it, is not part of
    this statement.) *)
Theorem write_error_is_final (f : FileOutput) (m : string)
    (messages : list string) (reached : string) (answers : list WriteAnswer)
    (bytes : string) :
  FileOutput_isValid f = true ->
  let '(results, f', disk') :=
    FileOutput_writeLogs f (m :: messages)
      (mkDisk (write_failed reached :: answers) bytes) in
  results = repeat false (S (List.length messages)) /\
  FileOutput_isValid f' = false /\
  write_answers disk' = answers.
Proof.
  intros Hv. cbn [FileOutput_writeLogs].
  unfold FileOutput_isValid in Hv. apply andb_true_iff in Hv as [Ho Hg].
  unfold FileOutput_writeLog at 1. rewrite Ho, Hg. cbn [negb].
  unfold sys_write. cbn [write_answers file_bytes].
  rewrite FileOutput_writeLogs_invalid
    by (unfold FileOutput_isValid; cbn; try apply andb_false_r; reflexivity).
  repeat split.
Qed.

Lemma write_error_is_final_witness :
  (FileOutput_writeLogs (FileOutput_new true "app.log") ["a"; "b"]
     (mkDisk [write_failed ""; write_ok] "old")).1.1 = [false; false].
Proof.
  pose proof (write_error_is_final (FileOutput_new true "app.log") "a" ["b"]
                "" [write_ok] "old" eq_refl) as H.
  destruct (FileOutput_writeLogs (FileOutput_new true "app.log") ["a"; "b"]
              (mkDisk [write_failed ""; write_ok] "old")) as [[results f'] disk'].
  destruct H as [H _]. exact H.
Defined.

(** X18. On an open file and a disk that takes every write, every
    [writeLog] returns true, the file grows by the messages, each closed by
    one line feed, in the order written, and the object stays valid. *)
Theorem file_takes_all (messages : list string) : forall (f : FileOutput)
    (bytes : string),
  FileOutput_isValid f = true ->
  FileOutput_writeLogs f messages (mkDisk [] bytes) =
    (repeat true (List.length messages), f,
     mkDisk [] (bytes ++ unlines messages)).
Proof.
  induction messages as [| m messages IH]; intros f bytes Hv.
  - cbn [FileOutput_writeLogs unlines List.length repeat].
    rewrite append_nil_r. reflexivity.
  - cbn [FileOutput_writeLogs].
    pose proof Hv as Hv'. unfold FileOutput_isValid in Hv'.
    apply andb_true_iff in Hv' as [Ho Hg].
    unfold FileOutput_writeLog at 1. rewrite Ho, Hg. cbn [negb].
    unfold sys_write. cbn [write_answers file_bytes].
    assert (Hf : mkFileOutput (file_is_open f) true (filename_ f) = f)
      by (destruct f; cbn in *; subst; reflexivity).
    rewrite Ho in Hf. rewrite Hf. rewrite (IH f _ Hv).
    cbn [unlines List.length repeat]. unfold newline.
    rewrite !append_assoc. reflexivity.
Qed.

Lemma file_takes_all_witness :
  (FileOutput_writeLogs (FileOutput_new true "app.log") ["a"; "b"]
     (mkDisk [] "")).2 = mkDisk [] (unlines ["a"; "b"]).
Proof.
  rewrite (file_takes_all ["a"; "b"] (FileOutput_new true "app.log") "");
    reflexivity.
Defined.

(** Lines free of line feeds, written one per line and followed by the
    beginning of a further line, come out of the loop as they went in. *)
Lemma cut_lines_unlines (lines : list string) : forall (rest : string)
    (fuel : nat),
  Forall (fun line => char_free line_feed line = true) lines ->
  char_free line_feed rest = true ->
  (List.length lines <= fuel)%nat ->
  cut_lines fuel (unlines lines ++ rest) = (lines, rest).
Proof.
  induction lines as [| line lines IH]; intros rest fuel Hlines Hrest Hfuel.
  - apply cut_lines_none. exact Hrest.
  - apply Forall_cons_iff in Hlines as [Hline Hlines].
    destruct fuel as [| fuel]; [simpl in Hfuel; lia |].
    cbn [unlines]. rewrite append_assoc, append_cons.
    rewrite cut_lines_step by exact Hline.
    rewrite (IH rest fuel Hlines Hrest) by (simpl in Hfuel; lia).
    reflexivity.
Qed.

Lemma unlines_length (lines : list string) :
  (List.length lines <= String.length (unlines lines))%nat.
Proof.
  induction lines as [| line lines IH]; [reflexivity |].
  cbn [unlines List.length]. rewrite length_append. simpl. lia.
Qed.

Lemma unlines_free_NUL (lines : list string) :
  Forall (fun line => char_free NUL line = true) lines ->
  char_free NUL (unlines lines) = true.
Proof.
  induction 1 as [| line lines Hline _ IH]; [reflexivity |].
  cbn [unlines]. rewrite char_free_app, Hline. cbn [char_free andb].
  rewrite IH. reflexivity.
Qed.

(** With a kernel that takes every buffer whole, each [writeLog] on a valid
    socket returns true, leaves the socket as it was, and sends the message
    and a line feed. *)
Lemma SocketOutput_writeLogs_whole (messages : list string) :
  forall (s : SocketOutput) (calls : list (Z * string)),
  SocketOutput_isValid s = true ->
  SocketOutput_writeLogs s messages (mkNet (whole_sends messages) calls) =
    (repeat true (List.length messages), s,
     mkNet []
       (calls ++ List.map (fun m => (socket_fd_ s, m ++ newline)) messages)).
Proof.
  induction messages as [| m messages IH]; intros s calls Hv.
  - cbn. rewrite app_nil_r. reflexivity.
  - cbn [SocketOutput_writeLogs whole_sends List.map].
    pose proof Hv as Hv'. unfold SocketOutput_isValid in Hv'.
    apply andb_true_iff in Hv' as [Hc Hfd]. apply Z.leb_le in Hfd.
    unfold SocketOutput_writeLog at 1. rewrite Hc. cbn [negb orb].
    destruct (Z.ltb_spec (socket_fd_ s) 0); [lia |].
    unfold sys_send. cbn [send_returns send_calls].
    destruct (Z.ltb_spec (Z.of_nat (String.length (m ++ newline))) 0);
      [lia |].
    rewrite Z.eqb_refl.
    fold (whole_sends messages). rewrite (IH s _ Hv).
    cbn [List.length repeat]. rewrite <- app_assoc. reflexivity.
Qed.

Lemma sent_bytes_lines (fd : Z) (messages : list string) :
  sent_bytes (mkNet [] (List.map (fun m => (fd, m ++ newline)) messages)) =
    unlines messages.
Proof.
  unfold sent_bytes. cbn [send_calls].
  induction messages as [| m messages IH]; [reflexivity |].
  cbn [List.map fold_right snd unlines]. rewrite IH. unfold newline.
  rewrite append_assoc. reflexivity.
Qed.

(** X19. What [SocketOutput] sends, the collector cuts back into the
    messages: when the socket is valid and the kernel takes every buffer
    whole, every [writeLog] returns true, and the bytes sent, received by
    the collector, give exactly the messages written, in order, with
    nothing left over (for messages that hold no line feed and no zero
    byte). *)
Theorem socket_lines_reach_collector (messages : list string)
    (s : SocketOutput) :
  SocketOutput_isValid s = true ->
  Forall (fun m => char_free line_feed m = true) messages ->
  Forall (fun m => char_free NUL m = true) messages ->
  let '(results, s', net') :=
    SocketOutput_writeLogs s messages (mkNet (whole_sends messages) []) in
  results = repeat true (List.length messages) /\
  s' = s /\
  receive_data "" (sent_bytes net') = (messages, "").
Proof.
  intros Hv Hlf Hnul.
  rewrite (SocketOutput_writeLogs_whole messages s [] Hv).
  split; [reflexivity |]. split; [reflexivity |].
  cbn [app]. rewrite sent_bytes_lines. unfold receive_data.
  rewrite (c_string_free _ (unlines_free_NUL messages Hnul)).
  change ("" ++ unlines messages) with (unlines messages).
  rewrite <- (append_nil_r (unlines messages)) at 2.
  apply cut_lines_unlines; [exact Hlf | reflexivity | apply unlines_length].
Qed.

Lemma socket_lines_reach_collector_witness :
  let '(results, s', net') :=
    SocketOutput_writeLogs (mkSocketOutput 3 "127.0.0.1" 9000 true)
      ["[t] [INFO] a"; "[t] [DEBUG] b"]
      (mkNet (whole_sends ["[t] [INFO] a"; "[t] [DEBUG] b"]) []) in
  results = [true; true] /\
  receive_data "" (sent_bytes net') = (["[t] [INFO] a"; "[t] [DEBUG] b"], "").
Proof.
  pose proof (socket_lines_reach_collector ["[t] [INFO] a"; "[t] [DEBUG] b"]
                (mkSocketOutput 3 "127.0.0.1" 9000 true) eq_refl
                ltac:(repeat constructor) ltac:(repeat constructor)) as H.
  destruct (SocketOutput_writeLogs (mkSocketOutput 3 "127.0.0.1" 9000 true)
              ["[t] [INFO] a"; "[t] [DEBUG] b"]
              (mkNet (whole_sends ["[t] [INFO] a"; "[t] [DEBUG] b"]) []))
    as [[results s'] net'].
  destruct H as (H1 & _ & H3). split; [exact H1 | exact H3].
Defined.

(** ** Logger: what a result of [log] tells the caller *)

(** X20. A true result of [log] means one of two things: the message was
    below the threshold and nothing was done with it, or the backend was
    valid, [writeLog] was called with the formatted message and returned
    true. *)
Theorem log_true_means (TRACE_value ERROR_value FATAL_value : Z)
    {W B : Type} `{!LogOutput W B}
    (lg : Logger B) (time message : string) (level : LogLevel) (w : W) :
  let int := LogLevel_int TRACE_value ERROR_value FATAL_value in
  let out := log TRACE_value ERROR_value FATAL_value lg time message level w in
  let fm := formatMessage time message level in
  returned out = true ->
  ((int level < int (defaultLevel_ lg))%Z /\ backend_calls out = []) \/
  (exists b, output_ lg = Some b /\ isValid b = true /\
             (writeLog b fm w).1.1 = true /\ emitted out fm).
Proof.
  intros int out fm Hret.
  destruct (Z.lt_ge_cases (int level) (int (defaultLevel_ lg))) as [Hlt | Hge].
  - left. split; [exact Hlt |]. unfold out.
    rewrite log_filtered by exact Hlt. reflexivity.
  - right. unfold out in *. destruct (output_ lg) as [b |] eqn:Hout.
    + destruct (isValid b) eqn:Hval.
      * rewrite (log_written _ _ _ lg time message level w b Hge Hout Hval)
          in *.
        exists b. cbn [returned] in Hret. repeat split; try assumption.
        unfold emitted. cbn [backend_calls]. right. left. reflexivity.
      * rewrite (log_invalid_output _ _ _ lg time message level w b Hge Hout
                   Hval) in Hret.
        discriminate.
    + rewrite (log_no_output _ _ _ lg time message level w Hge Hout) in Hret.
      discriminate.
Qed.

Lemma log_true_means_witness :
  let lg := Logger_file true "app.log" INFO SUCCESS in
  emitted (log (-1) 3 4 lg "12:00" "up" INFO (mkDisk [] ""))
    "[12:00] [INFO] up".
Proof.
  intros lg.
  destruct (log_true_means (-1) 3 4 lg "12:00" "up" INFO (mkDisk [] ""))
    as [[H _] | (b & _ & _ & _ & H)].
  - reflexivity.
  - simpl in H. lia.
  - exact H.
Defined.

(** X21. [log(message)], which logs at the logger's own threshold, is never
    filtered: it returns true exactly when the backend is present and valid
    and [writeLog] returns true for the formatted message. *)
Theorem log_default_true_iff (TRACE_value ERROR_value FATAL_value : Z)
    {W B : Type} `{!LogOutput W B}
    (lg : Logger B) (time message : string) (w : W) :
  let out := log_default TRACE_value ERROR_value FATAL_value lg time message w in
  let fm := formatMessage time message (defaultLevel_ lg) in
  returned out = true <->
  exists b, output_ lg = Some b /\ isValid b = true /\
            (writeLog b fm w).1.1 = true.
Proof.
  intros out fm. unfold out, log_default.
  assert (Hge : (LogLevel_int TRACE_value ERROR_value FATAL_value
                   (defaultLevel_ lg)
                 <= LogLevel_int TRACE_value ERROR_value FATAL_value
                      (defaultLevel_ lg))%Z) by lia.
  destruct (output_ lg) as [b |] eqn:Hout.
  - destruct (isValid b) eqn:Hval.
    + rewrite (log_written _ _ _ lg time message _ w b Hge Hout Hval).
      cbn [returned]. split.
      * intros H. exists b. repeat split; assumption.
      * intros (b' & [= <-] & _ & H). exact H.
    + rewrite (log_invalid_output _ _ _ lg time message _ w b Hge Hout Hval).
      cbn [returned]. split; [discriminate |].
      intros (b' & [= <-] & H & _). congruence.
  - rewrite (log_no_output _ _ _ lg time message _ w Hge Hout).
    cbn [returned]. split; [discriminate |].
    intros (b' & H & _). discriminate.
Qed.

Lemma log_default_true_iff_witness :
  returned
    (log_default (-1) 3 4 (Logger_file true "app.log" WARNING SUCCESS)
       "12:00" "up" (mkDisk [] "")) = true.
Proof.
  apply (log_default_true_iff (-1) 3 4
           (Logger_file true "app.log" WARNING SUCCESS) "12:00" "up"
           (mkDisk [] "")).
  exists (FileOutput_new true "app.log"). repeat split.
Defined.

(** X22. On a logger whose [isValid()] is false, [log] returns true for the
    messages below the threshold and false for all others, hands nothing to
    the backend, and changes neither the logger nor the world. *)
Theorem invalid_logger_log (TRACE_value ERROR_value FATAL_value : Z)
    {W B : Type} `{!LogOutput W B}
    (lg : Logger B) (time message : string) (level : LogLevel) (w : W) :
  let int := LogLevel_int TRACE_value ERROR_value FATAL_value in
  let out := log TRACE_value ERROR_value FATAL_value lg time message level w in
  Logger_isValid lg = false ->
  returned out = (int level <? int (defaultLevel_ lg))%Z /\
  logger_after out = lg /\ world_after out = w /\
  (forall s, ~ emitted out s).
Proof.
  intros int out Hinv. unfold out, Logger_isValid in *.
  destruct (Z.ltb_spec (int level) (int (defaultLevel_ lg))) as [Hlt | Hge].
  - rewrite log_filtered by exact Hlt. cbn. repeat split. intros s [].
  - destruct (output_ lg) as [b |] eqn:Hout.
    + rewrite (log_invalid_output _ _ _ lg time message level w b Hge Hout
                 Hinv).
      cbn. repeat split. intros s [H | []]. discriminate.
    + rewrite (log_no_output _ _ _ lg time message level w Hge Hout).
      cbn. repeat split. intros s [].
Qed.

Lemma invalid_logger_log_witness :
  returned
    (log (-1) 3 4 (Logger_file false "" INFO SUCCESS) "12:00" "up" WARNING
       (mkDisk [] "")) = false.
Proof.
  apply (invalid_logger_log (-1) 3 4 (Logger_file false "" INFO SUCCESS)
           "12:00" "up" WARNING (mkDisk [] "")).
  reflexivity.
Defined.

(** ** The interactive application: reading levels, queueing, the worker *)

Lemma string_find_skip (ch : ascii) (p s : string) :
  char_free ch p = true ->
  string_find ch (p ++ s) 0 =
    option_map (Nat.add (String.length p)) (string_find ch s 0).
Proof.
  induction p as [| c p IH]; intros Hfree.
  - change ("" ++ s) with s. destruct (string_find ch s 0); reflexivity.
  - rewrite append_cons. simpl in Hfree.
    apply andb_true_iff in Hfree as [Hc Hp]. apply negb_true_iff in Hc.
    cbn [string_find]. rewrite Hc, (IH Hp).
    destruct (string_find ch s 0); reflexivity.
Qed.

Lemma separatorPos_after_word (word text : string) (sep : ascii) :
  char_free ":" word = true -> char_free " " word = true ->
  sep = ":"%char \/ sep = " "%char ->
  LoggerApp.separatorPos (word ++ String sep text) =
    Some (String.length word).
Proof.
  intros Hc Hs Hsep. unfold LoggerApp.separatorPos.
  rewrite (string_find_skip ":" word _ Hc), (string_find_skip " " word _ Hs).
  destruct Hsep as [-> | ->]; cbn [string_find option_map];
    change (Ascii.eqb ":" ":") with true;
    change (Ascii.eqb " " " ") with true;
    change (Ascii.eqb ":" " ") with false;
    change (Ascii.eqb " " ":") with false;
    cbn [option_map].
  - destruct (string_find " " text 0); cbn [option_map];
      [f_equal; lia | f_equal; lia].
  - destruct (string_find ":" text 0); cbn [option_map];
      [f_equal; lia | f_equal; lia].
Qed.

(** X23. A line that begins with one of the eight spellings of a level,
    followed by a colon or a space, is read as that level, and its message
    is what follows the separator, less leading blanks and tabs. *)
Theorem level_word_line (word text : string) (L : LogLevel) (sep : ascii) :
  In (word, L) level_words ->
  sep = ":"%char \/ sep = " "%char ->
  LoggerApp.parseLogLevel (word ++ String sep text) = (L, true) /\
  LoggerApp.extractMessage (word ++ String sep text) true = skip_blanks text.
Proof.
  intros Hword Hsep.
  assert (Hfree : char_free ":" word = true /\ char_free " " word = true /\
                  word <> "").
  { unfold level_words in Hword. simpl in Hword.
    repeat (destruct Hword as [[= <- <-] | Hword];
            [repeat split; discriminate |]).
    destruct Hword. }
  destruct Hfree as (Hc & Hs & Hne).
  pose proof (separatorPos_after_word word text sep Hc Hs Hsep) as Hpos.
  split.
  - destruct word as [| c word]; [contradiction |].
    unfold LoggerApp.parseLogLevel.
    change (String c word ++ String sep text)
      with (String c (word ++ String sep text)).
    cbv iota.
    change (String c (word ++ String sep text))
      with (String c word ++ String sep text).
    rewrite Hpos, substring_prefix.
    unfold level_words in Hword. simpl in Hword.
    repeat (destruct Hword as [[= <- <- <-] | Hword]; [reflexivity |]).
    destruct Hword.
  - unfold LoggerApp.extractMessage. cbn [negb]. rewrite Hpos.
    rewrite (substr_from_shift word (String sep text) 1).
    cbn [substr_from]. rewrite substr_from_0.
    apply find_first_not_of_skip.
Qed.

Lemma level_word_line_witness :
  LoggerApp.parseLogLevel ("warn" ++ String ":" "  disk full") =
    (WARNING, true) /\
  LoggerApp.extractMessage ("warn" ++ String ":" "  disk full") true =
    skip_blanks "  disk full".
Proof.
  apply (level_word_line "warn" "  disk full" WARNING ":").
  - unfold level_words. simpl. tauto.
  - left. reflexivity.
Defined.

Lemma parseLogLevel_header_level (input : string) :
  header_level (LoggerApp.parseLogLevel input).1.
Proof.
  unfold LoggerApp.parseLogLevel, header_level.
  destruct input as [| c input]; [cbn; tauto |].
  destruct (LoggerApp.separatorPos (String c input)); [| cbn; tauto].
  repeat match goal with
         | |- context [if ?b then _ else _] => destruct b
         end; cbn; tauto.
Qed.

(** X24. The read loop only ever appends to the queue, and what it appends
    has a text that is not empty and a level among DEBUG, INFO and WARNING;
    it does not shut the queue down. *)
Theorem read_lines_queues (input : list string) :
  forall q : LoggerApp.ThreadSafeQueue,
  exists added : list LoggerApp.LogMessage,
    LoggerApp.queue_ (LoggerApp.read_lines input q) =
      (LoggerApp.queue_ q ++ added)%list /\
    Forall (fun m => LoggerApp.text m <> "" /\
                     header_level (LoggerApp.level m)) added /\
    LoggerApp.shutdown_ (LoggerApp.read_lines input q) =
      LoggerApp.shutdown_ q.
Proof.
  induction input as [| line input IH]; intros q.
  - exists []. cbn. rewrite app_nil_r. repeat split. constructor.
  - cbn [LoggerApp.read_lines].
    destruct (String.eqb line "quit" || String.eqb line "exit").
    { exists []. rewrite app_nil_r. repeat split. constructor. }
    destruct line as [| c line]; [apply IH |].
    pose proof (parseLogLevel_header_level (String c line)) as Hlevel.
    destruct (LoggerApp.parseLogLevel (String c line)) as [level hasLevel].
    cbn [fst] in Hlevel.
    destruct (LoggerApp.extractMessage (String c line) hasLevel)
      as [| d message] eqn:Hmsg; [apply IH |].
    destruct (IH (LoggerApp.push q
                    (LoggerApp.mkLogMessage (String d message) level)))
      as (added & Hq & Hall & Hsh).
    exists (LoggerApp.mkLogMessage (String d message) level :: added).
    split; [| split].
    + rewrite Hq. cbn [LoggerApp.push LoggerApp.queue_].
      rewrite <- app_assoc. reflexivity.
    + constructor; [| exact Hall]. cbn. split; [discriminate | exact Hlevel].
    + rewrite Hsh. reflexivity.
Qed.

(** X25. A line "quit" or "exit" ends the reading: the lines after it are
    not looked at, whatever they are. *)
Theorem read_lines_stops (before after : list string) (word : string) :
  word = "quit" \/ word = "exit" ->
  forall q : LoggerApp.ThreadSafeQueue,
  LoggerApp.read_lines (before ++ word :: after) q =
    LoggerApp.read_lines before q.
Proof.
  intros Hword. induction before as [| line before IH]; intros q.
  - cbn [app LoggerApp.read_lines]. destruct Hword as [-> | ->]; reflexivity.
  - cbn [app LoggerApp.read_lines].
    destruct (String.eqb line "quit" || String.eqb line "exit");
      [reflexivity |].
    destruct line as [| c line]; [apply IH |].
    destruct (LoggerApp.parseLogLevel (String c line)) as [level hasLevel].
    destruct (LoggerApp.extractMessage (String c line) hasLevel);
      apply IH.
Qed.

Lemma read_lines_stops_witness :
  LoggerApp.read_lines (["INFO: a"] ++ "quit" :: ["INFO: b"])
    LoggerApp.ThreadSafeQueue_new =
  LoggerApp.read_lines ["INFO: a"] LoggerApp.ThreadSafeQueue_new.
Proof.
  apply (read_lines_stops ["INFO: a"] ["INFO: b"] "quit").
  left. reflexivity.
Defined.

Lemma set_output_same {B : Type} (lg : Logger B) (b : B) :
  output_ lg = Some b -> set_output lg (Some b) = lg.
Proof. destruct lg. cbn. intros ->. reflexivity. Qed.

Lemma FileOutput_writeLog_accepted (f : FileOutput) (m bytes : string) :
  FileOutput_isValid f = true ->
  FileOutput_writeLog f m (mkDisk [] bytes) =
    (true, f, mkDisk [] (bytes ++ m ++ newline)).
Proof.
  unfold FileOutput_isValid, FileOutput_writeLog. intros Hv.
  apply andb_true_iff in Hv as [Ho Hg]. rewrite Ho, Hg. cbn [negb].
  unfold sys_write. cbn [write_answers file_bytes].
  destruct f; cbn in *; subst. reflexivity.
Qed.

(** X26. The worker delivers the queue in order.  On a queue holding
    [messages], with a logger on an open file and a disk that takes every
    write, and given room for one round more than there are messages, the
    worker empties the queue; the file grows by the formatted lines of the
    messages at or above the threshold, in queue order, one per line; every
    [log] returns true; and the worker then returns if the queue has been
    shut down, and waits in [pop] if it has not. *)
Theorem worker_delivers_in_order (TRACE_value ERROR_value FATAL_value : Z)
    (clock : nat -> string) (messages : list LoggerApp.LogMessage) :
  forall (n fuel : nat) (lg : Logger FileOutput) (f : FileOutput)
         (closed : bool) (bytes : string),
  output_ lg = Some f -> FileOutput_isValid f = true ->
  (List.length messages < fuel)%nat ->
  let out :=
    LoggerApp.loggerWorker TRACE_value ERROR_value FATAL_value fuel clock n lg
      (LoggerApp.mkThreadSafeQueue messages closed) (mkDisk [] bytes) in
  LoggerApp.worker_state out =
    (if closed then LoggerApp.worker_returned else LoggerApp.worker_waits) /\
  LoggerApp.queue_ (LoggerApp.worker_queue out) = [] /\
  LoggerApp.worker_world out =
    mkDisk []
      (bytes ++ unlines (worker_lines TRACE_value ERROR_value FATAL_value
                           clock n (defaultLevel_ lg) messages)) /\
  LoggerApp.worker_results out = repeat true (List.length messages) /\
  LoggerApp.worker_logger out = lg.
Proof.
  induction messages as [| m messages IH];
    intros n fuel lg f closed bytes Hout Hv Hfuel out.
  - destruct fuel as [| fuel]; [simpl in Hfuel; lia |].
    unfold out. cbn [LoggerApp.loggerWorker LoggerApp.pop LoggerApp.queue_
                       LoggerApp.shutdown_].
    destruct closed; cbn; rewrite append_nil_r; repeat split.
  - destruct fuel as [| fuel]; [simpl in Hfuel; lia |].
    assert (Hfuel' : (List.length messages < fuel)%nat)
      by (simpl in Hfuel; lia).
    unfold out.
    cbn [LoggerApp.loggerWorker LoggerApp.pop LoggerApp.queue_
           LoggerApp.shutdown_ worker_lines].
    destruct (Z.ltb_spec
                (LogLevel_int TRACE_value ERROR_value FATAL_value
                   (LoggerApp.level m))
                (LogLevel_int TRACE_value ERROR_value FATAL_value
                   (defaultLevel_ lg))) as [Hlt | Hge].
    + rewrite log_filtered by exact Hlt.
      cbn [logger_after world_after returned].
      destruct (IH (S n) fuel lg f closed bytes Hout Hv Hfuel')
        as (H1 & H2 & H3 & H4 & H5).
      cbn [LoggerApp.worker_state LoggerApp.worker_queue
             LoggerApp.worker_world LoggerApp.worker_results
             LoggerApp.worker_logger List.length repeat].
      rewrite H1, H2, H3, H4, H5. repeat split.
    + assert (Hval : isValid f = true) by exact Hv.
      rewrite (log_written _ _ _ lg (clock n) (LoggerApp.text m)
                 (LoggerApp.level m) (mkDisk [] bytes) f Hge Hout Hval).
      change (writeLog f
                (formatMessage (clock n) (LoggerApp.text m)
                   (LoggerApp.level m)) (mkDisk [] bytes))
        with (FileOutput_writeLog f
                (formatMessage (clock n) (LoggerApp.text m)
                   (LoggerApp.level m)) (mkDisk [] bytes)).
      rewrite FileOutput_writeLog_accepted by exact Hv.
      cbn [fst snd logger_after world_after returned].
      rewrite (set_output_same lg f Hout).
      destruct (IH (S n) fuel lg f closed
                  (bytes ++ formatMessage (clock n) (LoggerApp.text m)
                              (LoggerApp.level m) ++ newline)
                  Hout Hv Hfuel')
        as (H1 & H2 & H3 & H4 & H5).
      cbn [LoggerApp.worker_state LoggerApp.worker_queue
             LoggerApp.worker_world LoggerApp.worker_results
             LoggerApp.worker_logger List.length repeat unlines].
      rewrite H1, H2, H3, H4, H5. unfold newline.
      rewrite !append_assoc. repeat split.
Qed.

Lemma worker_delivers_in_order_witness :
  let out :=
    LoggerApp.loggerWorker (-1) 3 4 3 (fun _ => "12:00") 0
      (Logger_file true "app.log" INFO SUCCESS)
      (LoggerApp.mkThreadSafeQueue
         [LoggerApp.mkLogMessage "noise" DEBUG;
          LoggerApp.mkLogMessage "up" INFO] true)
      (mkDisk [] "") in
  LoggerApp.worker_state out = LoggerApp.worker_returned /\
  LoggerApp.worker_world out = mkDisk [] (unlines ["[12:00] [INFO] up"]).
Proof.
  intros out.
  destruct (worker_delivers_in_order (-1) 3 4 (fun _ => "12:00")
              [LoggerApp.mkLogMessage "noise" DEBUG;
               LoggerApp.mkLogMessage "up" INFO]
              0 3 (Logger_file true "app.log" INFO SUCCESS)
              (FileOutput_new true "app.log") true "")
    as (H1 & _ & H3 & _).
  - reflexivity.
  - reflexivity.
  - simpl. lia.
  - split; [exact H1 | exact H3].
Defined.

(** ** AsyncQueue under any run of calls *)

Lemma queue_call_bounded {T : Type} (q : AsyncQueue T) (c : QueueCall T) :
  (queue_size q <= max_size_ q)%N ->
  (queue_size (queue_call q c) <= max_size_ (queue_call q c))%N /\
  max_size_ (queue_call q c) = max_size_ q.
Proof.
  intros Hb. destruct c as [item | |]; cbn [queue_call].
  - unfold push. destruct (N.leb_spec (max_size_ q) (queue_size q)).
    + cbn. split; [exact Hb | reflexivity].
    + unfold queue_size in *. cbn. rewrite length_app. cbn.
      split; [lia | reflexivity].
  - destruct q as [items closed bound]. unfold queue_size in *.
    destruct items as [| x rest]; destruct closed; cbn in *;
      (split; [lia | reflexivity]).
  - cbn. split; [exact Hb | reflexivity].
Qed.

(** X27. The bound holds whatever the threads do: after any run of [push],
    [pop] and [shutdown] calls on a fresh queue, the queue holds at most
    [max_size] items, and [max_size_] is what it was. *)
Theorem queue_never_exceeds_bound {T : Type} (max_size : N)
    (calls : list (QueueCall T)) :
  let q := queue_calls (AsyncQueue_new max_size) calls in
  (queue_size q <= max_size)%N /\ max_size_ q = max_size.
Proof.
  assert (Hgen : forall (q0 : AsyncQueue T),
            (queue_size q0 <= max_size_ q0)%N ->
            (queue_size (queue_calls q0 calls) <= max_size_ q0)%N /\
            max_size_ (queue_calls q0 calls) = max_size_ q0).
  { induction calls as [| c calls IH]; intros q0 Hb.
    - cbn. split; [exact Hb | reflexivity].
    - unfold queue_calls. cbn [fold_left]. fold (queue_calls (queue_call q0 c) calls).
      destruct (queue_call_bounded q0 c Hb) as [Hb' Hm].
      destruct (IH _ Hb') as [H1 H2]. rewrite Hm in H1, H2. tauto. }
  intros q. apply (Hgen (AsyncQueue_new max_size)).
  unfold queue_size. cbn. lia.
Qed.

Lemma queue_call_shutdown {T : Type} (q : AsyncQueue T) (c : QueueCall T) :
  shutdown_ q = true -> shutdown_ (queue_call q c) = true.
Proof.
  intros Hs. destruct c as [item | |]; cbn [queue_call].
  - unfold push. destruct (max_size_ q <=? queue_size q)%N; cbn; exact Hs.
  - destruct q as [items closed bound]. cbn in Hs. subst closed.
    destruct items; reflexivity.
  - reflexivity.
Qed.

(** X28. Shutdown is for good, and after it [pop] never waits: whatever
    calls follow a [shutdown()], the queue stays shut down, and a [pop]
    returns at once, with the front item when there is one and with false
    when there is none. *)
Theorem after_shutdown_pop_returns {T : Type} (q : AsyncQueue T)
    (calls : list (QueueCall T)) :
  let q' := queue_calls (shutdown q) calls in
  shutdown_ q' = true /\
  (pop q').1 = match queue_ q' with
               | [] => pop_false
               | item :: _ => pop_true item
               end.
Proof.
  assert (Hgen : forall q0 : AsyncQueue T,
            shutdown_ q0 = true -> shutdown_ (queue_calls q0 calls) = true).
  { induction calls as [| c calls IH]; intros q0 Hs; [exact Hs |].
    unfold queue_calls. cbn [fold_left].
    apply (IH (queue_call q0 c)). apply queue_call_shutdown. exact Hs. }
  intros q'. assert (Hs : shutdown_ q' = true) by (apply Hgen; reflexivity).
  split; [exact Hs |].
  unfold pop, queue_empty. rewrite Hs. destruct (queue_ q'); reflexivity.
Qed.

(** ** Lines that end in a carriage return *)

Lemma drop_trailing_cr_added (line : string) :
  drop_trailing_cr (line ++ String carriage_return "") = line.
Proof.
  induction line as [| c line IH]; [reflexivity |].
  rewrite append_cons.
  destruct (line ++ String carriage_return "") as [| d rest] eqn:E.
  - destruct line; discriminate.
  - change (drop_trailing_cr (String c (String d rest)))
      with (String c (drop_trailing_cr (String d rest))).
    rewrite IH. reflexivity.
Qed.

Lemma drop_trailing_cr_none (line : string) :
  char_free carriage_return line = true -> drop_trailing_cr line = line.
Proof.
  induction line as [| c line IH]; intros Hfree; [reflexivity |].
  cbn [char_free] in Hfree. apply andb_true_iff in Hfree as [Hc Hl].
  apply negb_true_iff in Hc.
  destruct line as [| d rest].
  - cbn [drop_trailing_cr]. unfold carriage_return in Hc. rewrite Hc.
    reflexivity.
  - change (drop_trailing_cr (String c (String d rest)))
      with (String c (drop_trailing_cr (String d rest))).
    rewrite (IH Hl). reflexivity.
Qed.

(** X29. A line that arrives with a carriage return before its line feed
    is counted as the same line without it. *)
Theorem carriage_return_ignored (hour : Z) (st : LogStatistics)
    (line : string) (now : Z) :
  char_free carriage_return line = true ->
  receive_line hour st (line ++ String carriage_return "") now =
    receive_line hour st line now.
Proof.
  intros Hfree. unfold receive_line.
  rewrite drop_trailing_cr_added, (drop_trailing_cr_none line Hfree).
  destruct line as [| c line]; reflexivity.
Qed.

Lemma carriage_return_ignored_witness :
  receive_line 3600 (LogStatistics_new 0)
    ("[t] [INFO] hi" ++ String carriage_return "") 5 =
  receive_line 3600 (LogStatistics_new 0) "[t] [INFO] hi" 5.
Proof.
  apply (carriage_return_ignored 3600 (LogStatistics_new 0) "[t] [INFO] hi" 5).
  reflexivity.
Defined.
